(** * AutoDataClean: a shallow embedding of [auto_data_clean.py]

    The Python module cleans a pandas [DataFrame] by two optional filter
    passes (duplicate rows, rows with missing values), reports how many
    rows each pass removed, and offers a read-only summary and a CSV
    convenience wrapper.

    The development has these parts:
    - the table data model and the pandas operations the module calls
      ([len], [empty], [duplicated], [drop_duplicates], [isnull], [any],
      [sum], [dropna], [to_dict]), and the [str] methods behind the default
      output path;
    - Python object identity: a heap of frames addressed by references, the
      standard output and the files, threaded through a state-and-failure
      monad; on top of it [copy], the in-place variants, and the class
      [AutoDataClean] method by method, with [clean_data]; pandas' CSV
      parser and the writability of a path are parameters of [clean_data];
    - the stages of [clean] as functions on frames, and the predicates in
      which the specification speaks of duplicates and nulls;
    - the sample data of [example.py];
    - the properties of the module. *)

From Stdlib Require Import ZArith.
From stdpp Require Import base option list gmap strings.

Local Open Scope Z_scope.
Local Open Scope nat_scope.

(** ** Tables *)

Section Frame.
(** Cell values are kept abstract: the module only ever compares them
    for equality and tests them for being missing. *)
Context {V : Type} `{!EqDecision V}.

(** A cell is a value or the missing marker ([None], [NaN]). *)
Definition cell : Type := option V.

(** A row carries its index label and one cell per column. *)
Record row : Type := Row { label : nat; cells : list cell }.

(** A [DataFrame]: column names in order, and the rows in order. *)
Record DataFrame : Type := Frame { columns : list string; rows : list row }.

#[export] Instance row_eq_dec : EqDecision row.
Proof. solve_decision. Defined.

#[export] Instance DataFrame_eq_dec : EqDecision DataFrame.
Proof. solve_decision. Defined.

(** [len(df)] *)
Definition len (df : DataFrame) : nat := length (rows df).

(** [pd.isna] on one cell. *)
Definition isna (c : cell) : bool :=
  match c with
  | None => true
  | Some _ => false
  end.

(** [df.isnull()]: the boolean frame, row by row. *)
Definition isnull (df : DataFrame) : list (list bool) :=
  (λ r, isna <$> cells r) <$> rows df.

(** [.any(axis=1)] on a boolean frame: one boolean per row. *)
Definition any_axis1 (m : list (list bool)) : list bool :=
  existsb id <$> m.

(** [.sum()] on a boolean series: the number of [True] entries. *)
Fixpoint series_sum (s : list bool) : nat :=
  match s with
  | [] => 0
  | b :: s' => (if b then 1 else 0) + series_sum s'
  end.

(** [.sum()] on a boolean frame: one total per column, in column order. *)
Definition frame_sum (cols : list string) (m : list (list bool)) : list (string * nat) :=
  imap (λ j c, (c, series_sum ((λ r, nth j r false) <$> m))) cols.

(** [Series.to_dict()]: entries are stored in order, a later entry with
    the same key overwrites an earlier one. *)
Definition to_dict (s : list (string * nat)) : gmap string nat :=
  fold_left (λ d kv, <[kv.1 := kv.2]> d) s ∅.

(** [df.empty]: one of the two axes has length 0. *)
Definition empty (df : DataFrame) : bool :=
  (length (rows df) =? 0) || (length (columns df) =? 0).

(** The scan behind [duplicated] with the default [keep='first']: one pass
    over the rows that remembers the cell tuples already met; a row is
    flagged when its tuple was met before.  Index labels take no part. *)
Fixpoint duplicated_from (seen : list (list cell)) (rs : list row) : list bool :=
  match rs with
  | [] => []
  | r :: rs' =>
      if decide (cells r ∈ seen)
      then true :: duplicated_from seen rs'
      else false :: duplicated_from (cells r :: seen) rs'
  end.

(** [df.duplicated()]: on an empty frame pandas returns an empty series
    at once, otherwise the flags of the scan. *)
Definition duplicated (df : DataFrame) : list bool :=
  if empty df then [] else duplicated_from [] (rows df).

(** [df[mask]]: selection of the rows whose mask entry is [True]. *)
Fixpoint boolean_mask (mask : list bool) (rs : list row) : list row :=
  match mask, rs with
  | b :: mask', r :: rs' =>
      if b then r :: boolean_mask mask' rs' else boolean_mask mask' rs'
  | _, _ => []
  end.

(** [df.drop_duplicates()]: the frame [df[~df.duplicated()]]; an empty
    frame is left as it is. *)
Definition drop_duplicates (df : DataFrame) : DataFrame :=
  if empty df then df
  else Frame (columns df) (boolean_mask (negb <$> duplicated df) (rows df)).

(** [df.dropna()] with the defaults [axis=0, how='any']: the rows without
    a missing value. *)
Definition dropna (df : DataFrame) : DataFrame :=
  Frame (columns df) (boolean_mask (negb <$> any_axis1 (isnull df)) (rows df)).

(** Whether a row has a missing value: its entry in
    [df.isnull().any(axis=1)]. *)
Definition has_na (r : row) : bool := existsb id (isna <$> cells r).

(** The rows selected by [~duplicated], for a scan that starts with the
    tuples [seen]. *)
Definition dedup_from (seen : list (list cell)) (rs : list row) : list row :=
  boolean_mask (negb <$> duplicated_from seen rs) rs.

(** What [drop_duplicates] leaves: an empty frame, or one without repeated
    rows. *)
Definition deduplicated (df : DataFrame) : Prop :=
  empty df = true ∨ NoDup (cells <$> rows df).

End Frame.

Arguments cell : clear implicits.
Arguments row : clear implicits.
Arguments DataFrame : clear implicits.

(** ** Python strings *)

(** [s.startswith(old)] *)
Fixpoint starts_with (s old : string) : bool :=
  match old, s with
  | EmptyString, _ => true
  | String a old', String b s' =>
      if decide (a = b) then starts_with s' old' else false
  | String _ _, EmptyString => false
  end.

(** [s[n:]] and [s[:n]] *)
Fixpoint str_drop (n : nat) (s : string) : string :=
  match n, s with
  | S n', String _ s' => str_drop n' s'
  | _, _ => s
  end.

Fixpoint str_take (n : nat) (s : string) : string :=
  match n, s with
  | S n', String c s' => String c (str_take n' s')
  | _, _ => EmptyString
  end.

(** [s.find(old)], with [None] for Python's [-1]. *)
Fixpoint str_find (s old : string) : option nat :=
  if starts_with s old then Some 0
  else match s with
       | EmptyString => None
       | String _ s' => S <$> str_find s' old
       end.

(** [s.replace(old, new)] for a non-empty [old]: the string is scanned from
    the left; wherever [old] starts, [new] is emitted and the scan resumes
    after the occurrence (the next [skip] characters belong to it);
    elsewhere the character is copied. *)
Fixpoint str_replace_from (skip : nat) (old new s : string) : string :=
  match s with
  | EmptyString => EmptyString
  | String c s' =>
      match skip with
      | S k => str_replace_from k old new s'
      | O =>
          if starts_with s old
          then new +:+ str_replace_from (String.length old - 1) old new s'
          else String c (str_replace_from 0 old new s')
      end
  end.

Definition str_replace (s old new : string) : string :=
  str_replace_from 0 old new s.

(** Replacing the first occurrence only, as the specification words it. *)
Definition spec_replace_first (s old new : string) : string :=
  match str_find s old with
  | None => s
  | Some i => str_take i s +:+ new +:+ str_drop (i + String.length old) s
  end.

(** ** Python objects, standard output and files *)

(** The lines the module prints. *)
Inductive message : Type :=
  | Removed_duplicate_rows (duplicates_removed : Z)
      (* "Removed {duplicates_removed} duplicate rows." *)
  | Removed_null_rows (nulls_removed : Z)
      (* "Removed {nulls_removed} rows with null values." *)
  | Cleaning_complete (original_rows final_rows : nat)
      (* "Cleaning complete. Original rows: {..}, Final rows: {..}" *)
  | Saved_to (output_filepath : string).
      (* "Cleaned data saved to: {output_filepath}" *)

Section Interp.
Context {V : Type} `{!EqDecision V}.

(** What a CSV file holds: the header and the records.  The textual
    encoding is left out. *)
Definition csv : Type := (list string * list (list (cell V)))%type.

(** The state a call can observe or change: the frames that exist, each
    under its reference; what was printed; the files. *)
Record world : Type := World {
  heap : gmap positive (DataFrame V);
  stdout : list message;
  files : gmap string csv
}.

(** A computation either raises ([None]) or returns a value and the
    state it leaves. *)
Definition M (A : Type) : Type := world → option (A * world).

#[export] Instance M_ret : MRet M := λ A x w, Some (x, w).
#[export] Instance M_bind : MBind M := λ A B f m w,
  match m w with
  | Some (x, w') => f x w'
  | None => None
  end.

(** Reading the frame behind a reference. *)
Definition deref (df : positive) : M (DataFrame V) := λ w,
  match heap w !! df with
  | Some d => Some (d, w)
  | None => None
  end.

(** Replacing the content of an existing frame object
    (pandas' [_update_inplace]). *)
Definition update_inplace (df : positive) (d : DataFrame V) : M unit := λ w,
  Some (tt, World (<[df := d]> (heap w)) (stdout w) (files w)).

(** Creating a new frame object. *)
Definition new_frame (d : DataFrame V) : M positive := λ w,
  let l := fresh (dom (heap w)) in
  Some (l, World (<[l := d]> (heap w)) (stdout w) (files w)).

Definition print (m : message) : M unit := λ w,
  Some (tt, World (heap w) (stdout w ++ [m]) (files w)).

(** [len(df)] *)
Definition py_len (df : positive) : M nat :=
  d ← deref df; mret (len d).

(** [df.copy()]: a new object with the same content. *)
Definition copy (df : positive) : M positive :=
  d ← deref df; new_frame d.

(** [df.drop_duplicates(inplace=True)] *)
Definition drop_duplicates_inplace (df : positive) : M unit :=
  d ← deref df; update_inplace df (drop_duplicates d).

(** [df.dropna(inplace=True)] *)
Definition dropna_inplace (df : positive) : M unit :=
  d ← deref df; update_inplace df (dropna d).

(** pandas' CSV parser is not part of the module and is taken as a
    parameter: the column names and the records it makes of the content of a
    file, [None] when it raises (nothing to parse, malformed content).  What
    it returns need not be what the file holds: it renames repeated column
    names and converts values to the type it infers for a column. *)
Context (parse_csv : csv → option csv).

(** Whether the system lets a path be written, the files being what they
    are (the directory exists, the permissions allow it): a parameter. *)
Context (writable : gmap string csv → string → bool).

(** [pd.read_csv(filepath)]: raises when the file is missing and when the
    parser does; the frame gets the default index 0, 1, 2, ... *)
Definition read_csv (filepath : string) : M positive := λ w,
  match files w !! filepath with
  | Some content =>
      match parse_csv content with
      | Some (header, records) => new_frame (Frame header (imap Row records)) w
      | None => None
      end
  | None => None
  end.

(** Writing a file raises when the path cannot be written. *)
Definition write_file (path : string) (content : csv) : M unit := λ w,
  if writable (files w) path
  then Some (tt, World (heap w) (stdout w) (<[path := content]> (files w)))
  else None.

(** [df.to_csv(path, index=False)]: header and records, no index column. *)
Definition to_csv (df : positive) (path : string) : M unit :=
  d ← deref df; write_file path (columns d, cells <$> rows d).

(** *** class AutoDataClean *)

Record AutoDataClean : Type := Build_AutoDataClean {
  remove_duplicates : bool;
  remove_nulls : bool
}.

(** [AutoDataClean()] with the default arguments. *)
Definition AutoDataClean_default : AutoDataClean :=
  Build_AutoDataClean true true.

(** [AutoDataClean.clean(self, df, inplace)] *)
Definition clean (self : AutoDataClean) (df : positive) (inplace : bool)
    : M positive :=
  df ← (if negb inplace then copy df else mret df);
  original_rows ← py_len df;
  (if remove_duplicates self then
     drop_duplicates_inplace df;;
     n ← py_len df;
     let duplicates_removed := (Z.of_nat original_rows - Z.of_nat n)%Z in
     print (Removed_duplicate_rows duplicates_removed)
   else mret tt);;
  rows_before_null_removal ← py_len df;
  (if remove_nulls self then
     dropna_inplace df;;
     n ← py_len df;
     let nulls_removed := (Z.of_nat rows_before_null_removal - Z.of_nat n)%Z in
     print (Removed_null_rows nulls_removed)
   else mret tt);;
  n ← py_len df;
  print (Cleaning_complete original_rows n);;
  mret df.

(** The dictionary [get_summary] returns. *)
Record summary : Type := Summary {
  total_rows : nat;
  duplicate_rows : nat;
  rows_with_nulls : nat;
  null_counts_per_column : gmap string nat
}.

(** [AutoDataClean.get_summary(self, df)] *)
Definition get_summary (self : AutoDataClean) (df : positive) : M summary :=
  d ← deref df;
  mret (Summary
          (len d)
          (series_sum (duplicated d))
          (series_sum (any_axis1 (isnull d)))
          (to_dict (frame_sum (columns d) (isnull d)))).

(** [clean_data(filepath, output_filepath, remove_duplicates, remove_nulls)] *)
Definition clean_data (filepath : string) (output_filepath : option string)
    (remove_duplicates remove_nulls : bool) : M positive :=
  df ← read_csv filepath;
  let cleaner := Build_AutoDataClean remove_duplicates remove_nulls in
  df_cleaned ← clean cleaner df false;
  let output_filepath :=
    match output_filepath with
    | None => str_replace filepath ".csv" "_cleaned.csv"
    | Some p => p
    end in
  to_csv df_cleaned output_filepath;;
  print (Saved_to output_filepath);;
  mret df_cleaned.

End Interp.

Arguments world : clear implicits.
Arguments csv : clear implicits.
Arguments summary : clear implicits.

(** ** The stages of [clean], as functions on frames *)

Section Stages.
Context {V : Type} `{!EqDecision V}.
Implicit Types (self : AutoDataClean) (d : DataFrame V) (w : world V).
Implicit Types (df : positive) (inplace : bool).

(** The content of the frame [clean] works on when it reaches
    [rows_before_null_removal = len(df)], and when it returns. *)
Definition after_duplicates self d : DataFrame V :=
  if remove_duplicates self then drop_duplicates d else d.

Definition after_nulls self d : DataFrame V :=
  if remove_nulls self then dropna d else d.

Definition cleaned self d : DataFrame V :=
  after_nulls self (after_duplicates self d).

(** The lines one call prints, for a frame of content [d]. *)
Definition report self d : list message :=
  (if remove_duplicates self
   then [Removed_duplicate_rows
           (Z.of_nat (len d) - Z.of_nat (len (drop_duplicates d)))]
   else []) ++
  (if remove_nulls self
   then [Removed_null_rows
           (Z.of_nat (len (after_duplicates self d))
            - Z.of_nat (len (dropna (after_duplicates self d))))]
   else []) ++
  [Cleaning_complete (len d) (len (cleaned self d))].

(** The object [clean] works on and returns. *)
Definition target inplace w df : positive :=
  if inplace then df else fresh (dom (heap w)).

(** The report of a pass that removes nothing. *)
Definition idle_report self (n : nat) : list message :=
  (if remove_duplicates self then [Removed_duplicate_rows 0] else []) ++
  (if remove_nulls self then [Removed_null_rows 0] else []) ++
  [Cleaning_complete n n].

End Stages.

(** ** The predicates of the specification *)

Section SpecPredicates.
Context {V : Type} `{!EqDecision V}.
Implicit Types (r : row V) (rs : list (row V)).

(** Row [i] is a duplicate: all its column values equal those of a
    strictly earlier row. *)
Definition spec_duplicate rs (i : nat) : Prop :=
  from_option (λ ri, Exists (λ rj, cells rj = cells ri) (take i rs)) False
              (rs !! i).

(** There is a row [i], and it has property [Q]. *)
Definition holds_at (Q : row V → Prop) rs (i : nat) : Prop :=
  from_option Q False (rs !! i).

(** Row [i] has at least one absent value. *)
Definition spec_has_null rs (i : nat) : Prop :=
  holds_at (λ ri, None ∈ cells ri) rs i.

#[export] Instance spec_duplicate_dec rs i : Decision (spec_duplicate rs i).
Proof. unfold spec_duplicate. destruct (rs !! i); simpl; apply _. Defined.

#[export] Instance holds_at_dec (Q : row V → Prop) `{!∀ r, Decision (Q r)}
  rs i : Decision (holds_at Q rs i).
Proof. unfold holds_at. destruct (rs !! i); simpl; apply _. Defined.

#[export] Instance spec_has_null_dec rs i : Decision (spec_has_null rs i).
Proof. unfold spec_has_null. apply _. Defined.

End SpecPredicates.

(** ** The sample data of [example.py] *)

Inductive value : Type :=
  | Num (n : Z)
  | Str (s : string).

#[export] Instance value_eq_dec : EqDecision value.
Proof. solve_decision. Defined.

Module Example.
Local Open Scope Z_scope.

Definition NA : cell value := None.

(** [pd.DataFrame({'ID': [...], 'Name': [...], 'Age': [...], 'Salary': [...]})] *)
Definition df : DataFrame value :=
  Frame ["ID"; "Name"; "Age"; "Salary"]
    [ Row 0 [Some (Num 1); Some (Str "Alice");   Some (Num 25); Some (Num 50000)];
      Row 1 [Some (Num 2); Some (Str "Bob");     Some (Num 30); Some (Num 60000)];
      Row 2 [Some (Num 2); Some (Str "Bob");     Some (Num 30); Some (Num 60000)];
      Row 3 [Some (Num 3); Some (Str "Charlie"); NA;            Some (Num 70000)];
      Row 4 [Some (Num 4); NA;                   Some (Num 28); Some (Num 55000)];
      Row 5 [Some (Num 5); Some (Str "Eve");     Some (Num 35); NA];
      Row 6 [Some (Num 5); Some (Str "Eve");     Some (Num 35); NA] ].

(** A state in which [df] is the only frame. *)
Definition w0 : world value := World {[ 1%positive := df ]} [] ∅.

(** A frame with columns and no rows, alone in its state. *)
Definition empty_df : DataFrame value := Frame ["ID"; "Name"] [].
Definition w_empty : world value := World {[ 1%positive := empty_df ]} [] ∅.

(** A state without frames in which the sample data is the file
    [a.csv.csv]. *)
Definition w_csv : world value :=
  World ∅ [] {[ "a.csv.csv" := (columns df, cells <$> rows df) ]}.

(** The sample data without its duplicate rows and its rows with nulls,
    alone in its state. *)
Definition tidy_df : DataFrame value :=
  Frame ["ID"; "Name"; "Age"; "Salary"]
    [ Row 0 [Some (Num 1); Some (Str "Alice"); Some (Num 25); Some (Num 50000)];
      Row 1 [Some (Num 2); Some (Str "Bob");   Some (Num 30); Some (Num 60000)] ].
Definition w_tidy : world value := World {[ 1%positive := tidy_df ]} [] ∅.

(** A state without frames in which the sample data is the file
    [sample_data.csv], as [example.py] saves it, and the file [data.txt]. *)
Definition w_files : world value :=
  World ∅ []
    (<[ "sample_data.csv" := (columns df, cells <$> rows df) ]>
       {[ "data.txt" := (columns df, cells <$> rows df) ]}).

(** A parser that takes the header and the records as they stand, and
    raises when there is no header. *)
Definition parse_plain (content : csv value) : option (csv value) :=
  match content.1 with
  | [] => None
  | _ => Some content
  end.

(** A system on which every path can be written. *)
Definition every_path_writable (fs : gmap string (csv value)) (path : string)
    : bool := true.

(** A system with the working directory alone: a path with a directory
    part cannot be written. *)
Definition only_working_directory (fs : gmap string (csv value))
    (path : string) : bool :=
  match str_find path "/" with
  | None => true
  | Some _ => false
  end.

(** A state without frames in which the sample data is the file
    [d.csv/f.csv]. *)
Definition w_subdir : world value :=
  World ∅ [] {[ "d.csv/f.csv" := (columns df, cells <$> rows df) ]}.

(** Three rows and no column, alone in their state. *)
Definition no_columns_df : DataFrame value :=
  Frame [] [Row 0 []; Row 1 []; Row 2 []].
Definition w_no_columns : world value :=
  World {[ 1%positive := no_columns_df ]} [] ∅.
End Example.

(** * Properties *)

(** ** The two filters on rows *)

Section FrameFacts.
Context {V : Type} `{!EqDecision V}.
Implicit Types (r : row V) (rs : list (row V)) (d : DataFrame V).
Implicit Types (seen : list (list (cell V))) (mask : list bool).

Lemma boolean_mask_sublist mask rs : boolean_mask mask rs `sublist_of` rs.
Proof.
  revert rs. induction mask as [|b mask IH]; intros [|r rs]; simpl;
    try apply sublist_nil_l.
  destruct b; [apply sublist_skip | apply sublist_cons]; apply IH.
Qed.

Lemma boolean_mask_length mask rs : length (boolean_mask mask rs) ≤ length rs.
Proof. apply sublist_length, boolean_mask_sublist. Qed.

(** A mask computed row by row selects like [filter]. *)
Lemma boolean_mask_fmap (p : row V → bool) rs :
  boolean_mask (negb <$> (p <$> rs)) rs = filter (λ r, p r = false) rs.
Proof.
  induction rs as [|r rs IH]; [done|]. cbn [fmap list_fmap boolean_mask].
  destruct (p r) eqn:Hp; simpl.
  - rewrite filter_cons_False by congruence. exact IH.
  - rewrite filter_cons_True by done. by rewrite <-IH.
Qed.

(** What [boolean_mask] keeps is counted by the mask. *)
Lemma boolean_mask_count mask rs :
  length mask = length rs →
  length (boolean_mask (negb <$> mask) rs) + series_sum mask = length rs.
Proof.
  revert rs. induction mask as [|b mask IH]; intros [|r rs] Hlen;
    simplify_eq/=; [done|].
  specialize (IH rs ltac:(done)). destruct b; simpl; lia.
Qed.

(** *** Rows with a missing value *)

Lemma has_na_true r : has_na r = true ↔ None ∈ cells r.
Proof.
  unfold has_na. rewrite existsb_exists. split.
  - intros (b & Hin & Hb). apply list_elem_of_In, list_elem_of_fmap in Hin
      as (c & -> & Hc). destruct c; [done|]. exact Hc.
  - intros Hin. exists true. split; [|done].
    apply list_elem_of_In, list_elem_of_fmap. by exists None.
Qed.

Lemma has_na_false r : has_na r = false ↔ None ∉ cells r.
Proof. rewrite <-has_na_true. by destruct (has_na r). Qed.

Lemma any_isnull d : any_axis1 (isnull d) = has_na <$> rows d.
Proof. unfold any_axis1, isnull. by rewrite <-list_fmap_compose. Qed.

Lemma dropna_rows d :
  rows (dropna d) = filter (λ r, has_na r = false) (rows d).
Proof. unfold dropna; simpl. by rewrite any_isnull, boolean_mask_fmap. Qed.

Lemma dropna_complete d : Forall (λ r, None ∉ cells r) (rows (dropna d)).
Proof.
  rewrite dropna_rows. apply Forall_forall. intros r Hr.
  apply list_elem_of_filter in Hr as [Hr _]. by apply has_na_false.
Qed.

Lemma dropna_id d :
  Forall (λ r, None ∉ cells r) (rows d) → dropna d = d.
Proof.
  intros Hall. destruct d as [cols rs]. unfold dropna; simpl in *. f_equal.
  change (boolean_mask _ rs) with (rows (dropna (Frame cols rs))).
  rewrite dropna_rows. simpl. induction Hall as [|r rs Hr Hall IH]; [done|].
  rewrite filter_cons_True by by apply has_na_false. by rewrite IH.
Qed.

(** *** Rows met before *)

Lemma duplicated_from_length seen rs :
  length (duplicated_from seen rs) = length rs.
Proof.
  revert seen. induction rs as [|r rs IH]; intros seen; simpl; [done|].
  case_decide; simpl; by rewrite IH.
Qed.

Lemma dedup_from_cons seen r rs :
  dedup_from seen (r :: rs) =
    if decide (cells r ∈ seen) then dedup_from seen rs
    else r :: dedup_from (cells r :: seen) rs.
Proof. unfold dedup_from. simpl. by case_decide. Qed.

Lemma dedup_from_fresh seen rs :
  Forall (λ r, cells r ∉ seen) (dedup_from seen rs).
Proof.
  revert seen. induction rs as [|r rs IH]; intros seen.
  { by apply Forall_nil. }
  rewrite dedup_from_cons. case_decide as Hin; [apply IH|].
  apply Forall_cons. split; [done|].
  eapply Forall_impl; [apply IH|]. simpl. intros r' Hr' Hin'.
  apply Hr'. by apply list_elem_of_further.
Qed.

Lemma dedup_from_NoDup seen rs : NoDup (cells <$> dedup_from seen rs).
Proof.
  revert seen. induction rs as [|r rs IH]; intros seen.
  { apply NoDup_nil_2. }
  rewrite dedup_from_cons. case_decide as Hin; [apply IH|].
  rewrite fmap_cons. apply NoDup_cons. split; [|apply IH].
  intros Hin'. apply list_elem_of_fmap in Hin' as (r' & Heq & Hr').
  pose proof (dedup_from_fresh (cells r :: seen) rs) as Hall.
  rewrite Forall_forall in Hall. apply (Hall r' Hr').
  rewrite <-Heq. apply list_elem_of_here.
Qed.

Lemma dedup_from_id seen rs :
  NoDup (cells <$> rs) → Forall (λ r, cells r ∉ seen) rs →
  dedup_from seen rs = rs.
Proof.
  revert seen. induction rs as [|r rs IH]; intros seen Hnd Hall; [done|].
  rewrite fmap_cons in Hnd. apply NoDup_cons in Hnd as [Hr Hnd].
  apply Forall_cons in Hall as [Hseen Hall].
  rewrite dedup_from_cons, decide_False by done. f_equal.
  apply IH; [done|]. apply Forall_forall. intros r' Hr' Hin.
  apply elem_of_cons in Hin as [Heq|Hin].
  - apply Hr. rewrite <-Heq. by apply list_elem_of_fmap_2.
  - rewrite Forall_forall in Hall. by apply (Hall r').
Qed.

Lemma empty_true d : empty d = true ↔ rows d = [] ∨ columns d = [].
Proof.
  unfold empty. rewrite orb_true_iff, !Nat.eqb_eq, !length_zero_iff_nil. done.
Qed.

Lemma empty_false d : empty d = false ↔ rows d ≠ [] ∧ columns d ≠ [].
Proof.
  unfold empty. rewrite orb_false_iff, !Nat.eqb_neq, !length_zero_iff_nil. done.
Qed.

Lemma drop_duplicates_rows d :
  empty d = false → rows (drop_duplicates d) = dedup_from [] (rows d).
Proof. intros He. unfold drop_duplicates, duplicated. by rewrite He. Qed.

Lemma drop_duplicates_columns d : columns (drop_duplicates d) = columns d.
Proof. unfold drop_duplicates. by destruct (empty d). Qed.

(** A frame that went through [drop_duplicates] is empty or without
    repeated rows; so is what a later filter keeps of it. *)
Lemma drop_duplicates_deduplicated d : deduplicated (drop_duplicates d).
Proof.
  unfold deduplicated. destruct (empty d) eqn:He.
  - left. unfold drop_duplicates. by rewrite He.
  - right. rewrite drop_duplicates_rows by done. apply dedup_from_NoDup.
Qed.

Lemma deduplicated_sublist d d' :
  columns d' = columns d → rows d' `sublist_of` rows d →
  deduplicated d → deduplicated d'.
Proof.
  intros Hcols Hsub [He|Hnd].
  - left. apply empty_true. apply empty_true in He as [Hrows|Hc].
    + left. rewrite Hrows in Hsub. by apply sublist_nil_r.
    + right. by rewrite Hcols.
  - right. apply (sublist_NoDup _ (cells <$> rows d)); [done|].
    by apply fmap_sublist.
Qed.

Lemma drop_duplicates_id d : deduplicated d → drop_duplicates d = d.
Proof.
  intros Hd. unfold drop_duplicates, duplicated.
  destruct (empty d) eqn:He; [done|].
  destruct Hd as [?|Hnd]; [congruence|].
  destruct d as [cols rs]. simpl in *. f_equal.
  apply (dedup_from_id [] rs Hnd).
  apply Forall_forall. intros r _. apply not_elem_of_nil.
Qed.

Lemma drop_duplicates_sublist d : rows (drop_duplicates d) `sublist_of` rows d.
Proof.
  unfold drop_duplicates. destruct (empty d); [done|].
  apply boolean_mask_sublist.
Qed.

Lemma dropna_sublist d : rows (dropna d) `sublist_of` rows d.
Proof. apply boolean_mask_sublist. Qed.

Lemma drop_duplicates_count d :
  len (drop_duplicates d) + series_sum (duplicated d) = len d.
Proof.
  unfold len, drop_duplicates, duplicated.
  destruct (empty d); simpl; [lia|].
  apply boolean_mask_count, duplicated_from_length.
Qed.

Lemma dropna_count d :
  len (dropna d) + series_sum (any_axis1 (isnull d)) = len d.
Proof.
  unfold len, dropna; simpl. apply boolean_mask_count.
  unfold any_axis1, isnull. by rewrite !length_fmap.
Qed.

End FrameFacts.

(** ** Running [clean] *)

Section Runs.
Context {V : Type} `{!EqDecision V}.
Implicit Types (self : AutoDataClean) (d : DataFrame V) (w : world V).
Implicit Types (df : positive) (inplace : bool).

Lemma bind_run {A B} (m : M A) (f : A → M B) w x w' :
  m w = Some (x, w') → (m ≫= f) w = f x w'.
Proof. intros Hm. unfold mbind, M_bind. by rewrite Hm. Qed.

Lemma bind_assoc_run {A B C} (m : M A) (f : A → M B) (g : B → M C) w :
  ((m ≫= f) ≫= g) w = (m ≫= λ x, f x ≫= g) w.
Proof. unfold mbind, M_bind. by destruct (m w) as [[x w']|]. Qed.

Lemma py_len_run df w d :
  heap w !! df = Some d → py_len df w = Some (len d, w).
Proof. intros Hd. unfold py_len, deref, mbind, M_bind. by rewrite Hd. Qed.

Lemma copy_run df w d :
  heap w !! df = Some d →
  copy df w =
    Some (fresh (dom (heap w)),
          World (<[fresh (dom (heap w)) := d]> (heap w)) (stdout w) (files w)).
Proof. intros Hd. unfold copy, deref, mbind, M_bind. by rewrite Hd. Qed.

Lemma drop_duplicates_inplace_run df w d :
  heap w !! df = Some d →
  drop_duplicates_inplace df w =
    Some (tt, World (<[df := drop_duplicates d]> (heap w)) (stdout w) (files w)).
Proof.
  intros Hd. unfold drop_duplicates_inplace, deref, mbind, M_bind.
  by rewrite Hd.
Qed.

Lemma dropna_inplace_run df w d :
  heap w !! df = Some d →
  dropna_inplace df w =
    Some (tt, World (<[df := dropna d]> (heap w)) (stdout w) (files w)).
Proof.
  intros Hd. unfold dropna_inplace, deref, mbind, M_bind. by rewrite Hd.
Qed.

(** The body of [clean] after the optional copy, on the object [df]. *)
Lemma clean_body_run self df w d :
  heap w !! df = Some d →
  clean self df true w =
    Some (df, World (<[df := cleaned self d]> (heap w))
                    (stdout w ++ report self d) (files w)).
Proof.
  intros Hd. unfold clean. cbn [negb].
  rewrite (bind_run _ _ w df w) by done.
  rewrite (bind_run _ _ _ _ _ (py_len_run _ _ _ Hd)).
  unfold cleaned, report, after_nulls, after_duplicates.
  destruct self as [[] []]; cbn [remove_duplicates remove_nulls].
  all: repeat first
    [ rewrite bind_assoc_run
    | erewrite bind_run by
        first [ apply py_len_run; cbn [heap]; first [ apply lookup_insert_eq | eassumption ]
              | apply drop_duplicates_inplace_run; cbn [heap]; first [ apply lookup_insert_eq | eassumption ]
              | apply dropna_inplace_run; cbn [heap]; first [ apply lookup_insert_eq | eassumption ]
              | reflexivity ]
    | progress cbn [heap stdout files] ].
  all: unfold mret, M_ret; cbn [heap stdout files]; f_equal; f_equal.
  all: rewrite ?insert_insert_eq, <-?app_assoc; cbn [app]; try done.
  by rewrite insert_id.
Qed.

Lemma clean_run self df inplace w d :
  heap w !! df = Some d →
  clean self df inplace w =
    Some (target inplace w df,
          World (<[target inplace w df := cleaned self d]> (heap w))
                (stdout w ++ report self d) (files w)).
Proof.
  intros Hd. destruct inplace; [by apply clean_body_run|].
  pose proof (copy_run df w d Hd) as Hcopy. cbn [target].
  set (l := fresh (dom (heap w))) in *.
  set (w1 := World (<[l := d]> (heap w)) (stdout w) (files w)) in *.
  assert (heap w1 !! l = Some d) as Hl by apply lookup_insert_eq.
  pose proof (clean_body_run self l w1 d Hl) as Hbody.
  unfold clean in *. cbn [negb] in *.
  rewrite (bind_run _ _ _ _ _ Hcopy).
  rewrite (bind_run _ _ w1 l w1) in Hbody by done.
  rewrite Hbody. cbn [heap stdout files w1]. by rewrite insert_insert_eq.
Qed.

End Runs.

(** ** What [clean] keeps *)

Section Cleaned.
Context {V : Type} `{!EqDecision V}.
Implicit Types (self : AutoDataClean) (d : DataFrame V).

Lemma after_duplicates_columns self d :
  columns (after_duplicates self d) = columns d.
Proof.
  unfold after_duplicates. destruct (remove_duplicates self); [|done].
  apply drop_duplicates_columns.
Qed.

Lemma after_nulls_columns self d : columns (after_nulls self d) = columns d.
Proof. unfold after_nulls. by destruct (remove_nulls self). Qed.

Lemma after_duplicates_sublist self d :
  rows (after_duplicates self d) `sublist_of` rows d.
Proof.
  unfold after_duplicates. destruct (remove_duplicates self); [|done].
  apply drop_duplicates_sublist.
Qed.

Lemma after_nulls_sublist self d :
  rows (after_nulls self d) `sublist_of` rows d.
Proof.
  unfold after_nulls. destruct (remove_nulls self); [|done].
  apply dropna_sublist.
Qed.

Lemma cleaned_sublist self d : rows (cleaned self d) `sublist_of` rows d.
Proof.
  unfold cleaned. etrans; [apply after_nulls_sublist|].
  apply after_duplicates_sublist.
Qed.

Lemma after_duplicates_len self d : len (after_duplicates self d) ≤ len d.
Proof. apply sublist_length, after_duplicates_sublist. Qed.

Lemma after_nulls_len self d : len (after_nulls self d) ≤ len d.
Proof. apply sublist_length, after_nulls_sublist. Qed.

(** A cleaned frame is a fixed point of both stages. *)
Lemma after_duplicates_cleaned self d :
  after_duplicates self (cleaned self d) = cleaned self d.
Proof.
  unfold after_duplicates at 1. destruct (remove_duplicates self) eqn:Hrd; [|done].
  apply drop_duplicates_id. unfold cleaned.
  apply (deduplicated_sublist (after_duplicates self d)).
  - apply after_nulls_columns.
  - apply after_nulls_sublist.
  - unfold after_duplicates. rewrite Hrd. apply drop_duplicates_deduplicated.
Qed.

Lemma after_nulls_cleaned self d :
  after_nulls self (cleaned self d) = cleaned self d.
Proof.
  unfold after_nulls at 1. destruct (remove_nulls self) eqn:Hrn; [|done].
  apply dropna_id. unfold cleaned, after_nulls. rewrite Hrn.
  apply dropna_complete.
Qed.

Lemma cleaned_idem self d : cleaned self (cleaned self d) = cleaned self d.
Proof.
  unfold cleaned at 1.
  by rewrite after_duplicates_cleaned, after_nulls_cleaned.
Qed.

Lemma report_fixed self d :
  after_duplicates self d = d → after_nulls self d = d →
  report self d = idle_report self (len d).
Proof.
  intros Hdup Hna. unfold report, idle_report, cleaned.
  rewrite Hdup, Hna. unfold after_duplicates, after_nulls in *.
  destruct (remove_duplicates self), (remove_nulls self);
    rewrite ?Hdup, ?Hna, ?Z.sub_diag; done.
Qed.

Lemma cleaned_empty self d : rows d = [] → cleaned self d = d.
Proof.
  destruct d as [cols rs]; simpl; intros ->.
  unfold cleaned, after_nulls, after_duplicates.
  by destruct (remove_duplicates self), (remove_nulls self).
Qed.

End Cleaned.

(** ** Properties of [clean] *)

Section CleanProperties.
Context {V : Type} `{!EqDecision V}.
Implicit Types (self : AutoDataClean) (d : DataFrame V) (w : world V).
Implicit Types (df out : positive) (inplace : bool).

(** C2: for every table and each of the four flag combinations, [clean]
    returns a frame with at most as many rows as the input, and the counts
    it takes on the way are monotone: the final row count is at most
    [rows_before_null_removal], the count after the duplicate stage, which
    is at most [original_rows].  The differences are what is printed. *)
Theorem clean_row_counts_monotone self df inplace w d :
  heap w !! df = Some d →
  ∃ out w' d',
    clean self df inplace w = Some (out, w') ∧
    heap w' !! out = Some d' ∧
    d' = after_nulls self (after_duplicates self d) ∧
    stdout w' = stdout w ++ report self d ∧
    len d' ≤ len (after_duplicates self d) ∧
    len (after_duplicates self d) ≤ len d ∧
    len d' ≤ len d.
Proof.
  intros Hd. eexists _, _, _. split; [by apply clean_run|]. cbn [heap stdout].
  split; [apply lookup_insert_eq|]. split; [done|]. split; [done|].
  pose proof (after_nulls_len self (after_duplicates self d)).
  pose proof (after_duplicates_len self d).
  unfold cleaned. lia.
Qed.

(** C3: [clean] is idempotent: cleaning the frame a first call returned,
    with the same configuration, returns a frame with the same columns and
    the same rows, and that second pass reports that it removed nothing. *)
Theorem clean_idempotent self df inplace inplace' w d :
  heap w !! df = Some d →
  ∃ out w1 out' w2 d1,
    clean self df inplace w = Some (out, w1) ∧
    heap w1 !! out = Some d1 ∧
    clean self out inplace' w1 = Some (out', w2) ∧
    heap w2 !! out' = Some d1 ∧
    stdout w2 = stdout w1 ++ idle_report self (len d1).
Proof.
  intros Hd. eexists _, _, _, _, (cleaned self d).
  split; [by apply clean_run|].
  assert (∀ h : gmap positive (DataFrame V),
    <[target inplace w df := cleaned self d]> h !! target inplace w df
    = Some (cleaned self d)) as Hout by (intros; apply lookup_insert_eq).
  split; [apply Hout|]. split; [apply clean_run, Hout|]. cbn [heap stdout].
  rewrite cleaned_idem. split; [apply lookup_insert_eq|]. f_equal.
  apply report_fixed;
    [apply after_duplicates_cleaned | apply after_nulls_cleaned].
Qed.

(** C4: with [inplace=False] the caller's frame, and every other frame
    that existed, has the same content after the call, and the result is
    another object; with [inplace=True] the caller's frame holds the
    filtered result and is the object returned. *)
Theorem clean_copy_or_mutate self df w d :
  heap w !! df = Some d →
  (∃ out w',
      clean self df false w = Some (out, w') ∧
      heap w' !! df = Some d ∧
      (∀ l, is_Some (heap w !! l) → heap w' !! l = heap w !! l) ∧
      out ≠ df ∧
      heap w' !! out = Some (cleaned self d)) ∧
  (∃ w',
      clean self df true w = Some (df, w') ∧
      heap w' !! df = Some (cleaned self d) ∧
      (∀ l, l ≠ df → heap w' !! l = heap w !! l)).
Proof.
  intros Hd. split.
  - eexists _, _. split; [by apply clean_run|]. cbn [heap target].
    assert (∀ l, is_Some (heap w !! l) → fresh (dom (heap w)) ≠ l) as Hfresh.
    { intros l Hl%elem_of_dom Heq. subst l. by apply (is_fresh (dom (heap w))). }
    split; [|split; [|split]].
    + rewrite lookup_insert_ne; [done|]. by apply Hfresh.
    + intros l Hl. apply lookup_insert_ne. by apply Hfresh.
    + by apply Hfresh.
    + apply lookup_insert_eq.
  - eexists. split; [by apply clean_run|]. cbn [heap target].
    split; [apply lookup_insert_eq|].
    intros l Hl. by apply lookup_insert_ne.
Qed.

(** C8: with both flags off, [clean] returns a frame with the content of
    its input, columns and rows, and prints only the closing line; when
    [inplace] is false the frame returned is a new object, not the input
    one, which is still there with its content. *)
Theorem clean_passthrough df inplace w d :
  heap w !! df = Some d →
  ∃ out w',
    clean (Build_AutoDataClean false false) df inplace w = Some (out, w') ∧
    heap w' !! out = Some d ∧
    stdout w' = stdout w ++ [Cleaning_complete (len d) (len d)] ∧
    (inplace = true → out = df) ∧
    (inplace = false →
       out ≠ df ∧ heap w !! out = None ∧ heap w' !! df = Some d).
Proof.
  intros Hd. eexists _, _. split; [by apply clean_run|]. cbn [heap stdout].
  split; [apply lookup_insert_eq|]. split; [done|].
  split; intros ->; cbn [target]; [done|].
  assert (heap w !! fresh (dom (heap w)) = None) as Hnew.
  { apply not_elem_of_dom, is_fresh. }
  assert (fresh (dom (heap w)) ≠ df) as Hne by congruence.
  split; [done|]. split; [done|]. by rewrite lookup_insert_ne.
Qed.

(** C9: [clean] raises for no frame: for every configuration it returns a
    frame.  On a frame without rows it returns a frame with the same
    columns and no rows, and each stage that is switched on reports 0 rows
    removed. *)
Theorem clean_never_fails self df inplace w d :
  heap w !! df = Some d →
  (∃ out w' d',
      clean self df inplace w = Some (out, w') ∧ heap w' !! out = Some d') ∧
  (rows d = [] →
   ∃ out w',
      clean self df inplace w = Some (out, w') ∧
      heap w' !! out = Some d ∧
      stdout w' = stdout w ++
        (if remove_duplicates self then [Removed_duplicate_rows 0] else []) ++
        (if remove_nulls self then [Removed_null_rows 0] else []) ++
        [Cleaning_complete 0 0]).
Proof.
  intros Hd. split.
  - eexists _, _, _. split; [by apply clean_run|]. apply lookup_insert_eq.
  - intros Hrows. eexists _, _. split; [by apply clean_run|].
    cbn [heap stdout]. pose proof (cleaned_empty self d Hrows) as Hc.
    rewrite Hc. split; [apply lookup_insert_eq|]. f_equal.
    unfold cleaned in Hc.
    assert (after_duplicates self d = d) as Hdup.
    { destruct d as [cols rs]; simpl in Hrows; subst rs.
      unfold after_duplicates. by destruct (remove_duplicates self). }
    rewrite Hdup in Hc. rewrite (report_fixed self d Hdup Hc).
    unfold idle_report, len. by rewrite Hrows.
Qed.

(** C10: [clean] keeps the columns, names and order, and only removes
    whole rows: the rows of the result are rows of the input, with their
    labels and cells, in the order of the input. *)
Theorem clean_preserves_columns_and_rows self df inplace w d :
  heap w !! df = Some d →
  ∃ out w' d',
    clean self df inplace w = Some (out, w') ∧
    heap w' !! out = Some d' ∧
    columns d' = columns d ∧
    rows d' `sublist_of` rows d ∧
    (∀ r, r ∈ rows d' → r ∈ rows d).
Proof.
  intros Hd. eexists _, _, _. split; [by apply clean_run|]. cbn [heap].
  split; [apply lookup_insert_eq|]. split; [|split].
  - unfold cleaned. by rewrite after_nulls_columns, after_duplicates_columns.
  - apply cleaned_sublist.
  - intros r Hr. eapply elem_of_sublist; [exact Hr|apply cleaned_sublist].
Qed.

End CleanProperties.

(** ** The library calls against the predicates of the specification *)

Section Predicates.
Context {V : Type} `{!EqDecision V}.
Implicit Types (r : row V) (rs pre : list (row V)) (d : DataFrame V).

(** The same with the earlier row named. *)
Lemma spec_duplicate_earlier rs i :
  spec_duplicate rs i ↔
  ∃ j rj ri, j < i ∧ rs !! j = Some rj ∧ rs !! i = Some ri ∧ cells rj = cells ri.
Proof.
  unfold spec_duplicate. split.
  - destruct (rs !! i) as [ri|] eqn:Hi; simpl; [|done].
    intros (rj & Hin & Heq)%Exists_exists.
    apply list_elem_of_lookup in Hin as [j Hj].
    apply lookup_take_Some in Hj as [Hj Hlt]. by exists j, rj, ri.
  - intros (j & rj & ri & Hlt & Hj & -> & Heq). simpl.
    apply Exists_exists. exists rj. split; [|done].
    apply (list_elem_of_lookup_2 _ j). by rewrite lookup_take_lt.
Qed.

(** Counting the entries of a series computed element by element. *)
Lemma series_sum_fmap {A} (f : A → bool) (P : A → Prop)
    `{!∀ x, Decision (P x)} (l : list A) :
  (∀ x, f x = true ↔ P x) →
  series_sum (f <$> l) = length (filter P l).
Proof.
  intros Hf. induction l as [|x l IH]; [done|]. cbn [fmap list_fmap series_sum].
  rewrite IH. destruct (f x) eqn:Hx.
  - by rewrite filter_cons_True by by apply Hf.
  - rewrite filter_cons_False; [done|]. rewrite <-Hf. congruence.
Qed.

(** [duplicated] flags exactly the rows the specification calls
    duplicates.  [pre] are the rows already scanned. *)
Lemma duplicated_from_spec pre seen rs :
  (∀ x, x ∈ seen ↔ x ∈ cells <$> pre) →
  duplicated_from seen rs =
    (λ i, bool_decide (spec_duplicate (pre ++ rs) i))
      <$> seq (length pre) (length rs).
Proof.
  revert pre seen. induction rs as [|r rs IH]; intros pre seen Hseen; [done|].
  assert (spec_duplicate (pre ++ r :: rs) (length pre) ↔ cells r ∈ seen)
    as Hhead.
  { unfold spec_duplicate. rewrite list_lookup_middle by done. simpl.
    rewrite take_app_length, Exists_exists, Hseen, list_elem_of_fmap.
    split; [intros (rj & ? & ?)|intros (rj & ? & ?)]; by exists rj. }
  assert (∀ seen', (∀ x, x ∈ seen' ↔ x ∈ cells <$> (pre ++ [r])) →
    duplicated_from seen' rs =
      (λ i, bool_decide (spec_duplicate (pre ++ r :: rs) i))
        <$> seq (S (length pre)) (length rs)) as Htail.
  { intros seen' Hseen'. rewrite (IH (pre ++ [r]) seen' Hseen').
    rewrite <-app_assoc, length_app. simpl.
    by replace (length pre + 1) with (S (length pre)) by lia. }
  cbn [duplicated_from length seq fmap list_fmap].
  case_decide as Hin.
  - rewrite bool_decide_eq_true_2 by by apply Hhead. f_equal.
    apply Htail. intros x. rewrite fmap_app, elem_of_app, <-Hseen. simpl.
    rewrite list_elem_of_singleton. split; [by left|].
    intros [?| ->]; done.
  - rewrite bool_decide_eq_false_2 by by rewrite Hhead. f_equal.
    apply Htail. intros x. rewrite fmap_app, elem_of_app, <-Hseen. simpl.
    rewrite elem_of_cons, list_elem_of_singleton. tauto.
Qed.

Lemma duplicated_spec d :
  columns d ≠ [] →
  duplicated d =
    (λ i, bool_decide (spec_duplicate (rows d) i)) <$> seq 0 (len d).
Proof.
  intros Hcols. unfold duplicated. destruct (empty d) eqn:He.
  - apply empty_true in He as [Hrows|?]; [|done]. unfold len. by rewrite Hrows.
  - by apply (duplicated_from_spec [] []).
Qed.

(** The rows [drop_duplicates] keeps, seen from the original positions:
    counting those with property [Q] is counting the positions that are
    no duplicates and whose row has [Q]. *)
Lemma boolean_mask_positions (P : nat → Prop) (Q : row V → Prop)
    `{!∀ i, Decision (P i)} `{!∀ r, Decision (Q r)} pre rs :
  length (filter Q
    (boolean_mask (negb <$> ((λ i, bool_decide (P i))
                               <$> seq (length pre) (length rs))) rs)) =
  length (filter (λ i, ¬ P i ∧ holds_at Q (pre ++ rs) i)
                 (seq (length pre) (length rs))).
Proof.
  revert pre. induction rs as [|r rs IH]; intros pre; [done|].
  specialize (IH (pre ++ [r])). rewrite <-app_assoc, length_app in IH.
  simpl in IH. replace (length pre + 1) with (S (length pre)) in IH by lia.
  cbn [length seq fmap list_fmap boolean_mask].
  assert ((pre ++ r :: rs) !! length pre = Some r) as Hr
    by by apply list_lookup_middle.
  destruct (decide (P (length pre))) as [HP|HP].
  - rewrite bool_decide_eq_true_2 by done. cbn [negb].
    rewrite (filter_cons_False _ (length pre)) by tauto. apply IH.
  - rewrite bool_decide_eq_false_2 by done. cbn [negb].
    destruct (decide (Q r)) as [HQ|HQ].
    + rewrite filter_cons_True by done.
      rewrite (filter_cons_True _ (length pre))
        by by unfold holds_at; rewrite Hr.
      simpl. by rewrite IH.
    + rewrite filter_cons_False by done.
      rewrite (filter_cons_False _ (length pre)); [apply IH|].
      unfold holds_at. rewrite Hr. simpl. tauto.
Qed.

(** Counting, among the rows [drop_duplicates] keeps, those with [Q]. *)
Lemma drop_duplicates_positions (Q : row V → Prop) `{!∀ r, Decision (Q r)} d :
  columns d ≠ [] →
  length (filter Q (rows (drop_duplicates d))) =
  length (filter (λ i, ¬ spec_duplicate (rows d) i ∧ holds_at Q (rows d) i)
                 (seq 0 (len d))).
Proof.
  intros Hcols. destruct (empty d) eqn:He.
  - apply empty_true in He as [Hrows|?]; [|done].
    rewrite drop_duplicates_id by (left; apply empty_true; by left).
    unfold len. by rewrite Hrows.
  - rewrite drop_duplicates_rows by done. unfold dedup_from.
    rewrite (duplicated_from_spec [] [] (rows d)) by done.
    apply (boolean_mask_positions _ _ []).
Qed.

End Predicates.

(** ** Properties of [get_summary] and of the stage order *)

Section SummaryProperties.
Context {V : Type} `{!EqDecision V}.
Implicit Types (self : AutoDataClean) (d : DataFrame V) (w : world V).
Implicit Types (df out : positive) (inplace : bool).

Lemma to_dict_from_other (s : list (string * nat)) (m : gmap string nat) c :
  c ∉ s.*1 →
  fold_left (λ acc kv, <[kv.1 := kv.2]> acc) s m !! c = m !! c.
Proof.
  revert m. induction s as [|[k v] s IH]; intros m Hc; [done|].
  rewrite fmap_cons, not_elem_of_cons in Hc. destruct Hc as [Hk Hc].
  simpl. rewrite IH by done. by apply lookup_insert_ne.
Qed.

Lemma to_dict_lookup (s : list (string * nat)) c n :
  NoDup s.*1 → (c, n) ∈ s → to_dict s !! c = Some n.
Proof.
  unfold to_dict. generalize (∅ : gmap string nat).
  induction s as [|[k v] s IH]; intros m Hnd Hin.
  { by apply elem_of_nil in Hin. }
  rewrite fmap_cons in Hnd. apply NoDup_cons in Hnd as [Hk Hnd].
  apply elem_of_cons in Hin as [Heq|Hin]; simpl.
  - simplify_eq. rewrite to_dict_from_other by done. apply lookup_insert_eq.
  - by apply IH.
Qed.

Lemma frame_sum_keys cols (m : list (list bool)) : (frame_sum cols m).*1 = cols.
Proof.
  apply list_eq. intros i. unfold frame_sum.
  rewrite list_lookup_fmap, list_lookup_imap. by destruct (cols !! i).
Qed.

(** The null count of the column at position [j]. *)
Lemma column_null_count d j :
  series_sum ((λ bs, nth j bs false) <$> isnull d) =
  length (filter (λ r, cells r !! j = Some None) (rows d)).
Proof.
  unfold isnull. rewrite <-list_fmap_compose. apply series_sum_fmap.
  intros r. simpl. rewrite nth_lookup, list_lookup_fmap.
  destruct (cells r !! j) as [[v|]|]; simpl; split; intros; by simplify_eq.
Qed.

Lemma duplicated_count d :
  columns d ≠ [] →
  series_sum (duplicated d) =
  length (filter (spec_duplicate (rows d)) (seq 0 (len d))).
Proof.
  intros Hcols. rewrite duplicated_spec by done. apply series_sum_fmap.
  intros i. apply bool_decide_eq_true.
Qed.

(** C5: [get_summary] leaves every frame, the output and the files as they
    were, and its four figures are counts over the frame it was given: the
    number of rows; the number of rows whose column values all equal those
    of a strictly earlier row; the number of rows with an absent value;
    and, for each column, the number of rows whose value in that column is
    absent.  Each figure is a count of its own: a row can be counted as a
    duplicate and as a row with nulls.  The frame is a table of the data
    model: it has a column (for the duplicate figure, as [duplicated] gives
    up on a frame without columns) and its column names differ (for the
    dictionary of the per-column figures). *)
Theorem get_summary_counts self df w d :
  heap w !! df = Some d →
  (∃ s,
      get_summary self df w = Some (s, w) ∧
      total_rows s = length (rows d) ∧
      (columns d ≠ [] →
         duplicate_rows s =
           length (filter (spec_duplicate (rows d)) (seq 0 (length (rows d))))) ∧
      rows_with_nulls s = length (filter (λ r, None ∈ cells r) (rows d)) ∧
      (NoDup (columns d) → ∀ j c, columns d !! j = Some c →
         null_counts_per_column s !! c =
           Some (length (filter (λ r, cells r !! j = Some None) (rows d))))) ∧
  (∃ (d0 : DataFrame V) i,
      spec_duplicate (rows d0) i ∧ spec_has_null (rows d0) i).
Proof.
  intros Hd. split.
  - eexists. split.
    { unfold get_summary, deref, mbind, M_bind. rewrite Hd. reflexivity. }
    cbn [total_rows duplicate_rows rows_with_nulls null_counts_per_column].
    split; [done|]. split; [apply duplicated_count|]. split.
    + rewrite any_isnull. apply series_sum_fmap, has_na_true.
    + intros Hnd j c Hj. apply to_dict_lookup.
      { by rewrite frame_sum_keys. }
      apply (list_elem_of_lookup_2 _ j). unfold frame_sum.
      rewrite list_lookup_imap, Hj. simpl. by rewrite column_null_count.
  - exists (Frame ["A"] [Row 0 [None]; Row 1 [None]]), 1.
    split.
    + apply spec_duplicate_earlier. exists 0, (Row 0 [None]), (Row 1 [None]).
      split; [lia|done].
    + unfold spec_has_null, holds_at. simpl. apply list_elem_of_here.
Qed.

(** C6: with both flags on, [clean] is [dropna] after [drop_duplicates],
    and it prints the rows lost at the duplicate stage, then the rows lost at
    the null stage.  On a table (a frame with a column) the first count is the
    number of rows that repeat an earlier row, whether or not they hold
    nulls, and the second is the number of rows with a null that repeat no
    earlier row.  A copy of an earlier row with nulls is thus counted by the
    duplicate stage and not by the null stage. *)
Theorem clean_duplicates_before_nulls df inplace w d :
  heap w !! df = Some d →
  ∃ out w',
    clean (Build_AutoDataClean true true) df inplace w = Some (out, w') ∧
    heap w' !! out = Some (dropna (drop_duplicates d)) ∧
    stdout w' = stdout w ++
      [ Removed_duplicate_rows
          (Z.of_nat (len d) - Z.of_nat (len (drop_duplicates d)));
        Removed_null_rows
          (Z.of_nat (len (drop_duplicates d))
           - Z.of_nat (len (dropna (drop_duplicates d))));
        Cleaning_complete (len d) (len (dropna (drop_duplicates d))) ] ∧
    (columns d ≠ [] →
       (Z.of_nat (len d) - Z.of_nat (len (drop_duplicates d)))%Z =
         Z.of_nat (length (filter (spec_duplicate (rows d)) (seq 0 (len d)))) ∧
       (Z.of_nat (len (drop_duplicates d))
        - Z.of_nat (len (dropna (drop_duplicates d))))%Z =
         Z.of_nat (length (filter (λ i, ¬ spec_duplicate (rows d) i
                                        ∧ spec_has_null (rows d) i)
                                  (seq 0 (len d))))).
Proof.
  intros Hd. eexists _, _. split; [by apply clean_run|]. cbn [heap stdout].
  split; [apply lookup_insert_eq|]. split; [done|]. intros Hcols.
  pose proof (drop_duplicates_count d) as Hdup.
  pose proof (dropna_count (drop_duplicates d)) as Hna.
  rewrite duplicated_count in Hdup by done.
  rewrite any_isnull in Hna.
  rewrite (series_sum_fmap has_na (λ r, None ∈ cells r)) in Hna
    by apply has_na_true.
  rewrite drop_duplicates_positions in Hna by done.
  split; [lia|].
  match type of Hna with
  | _ + ?n = _ =>
      assert ((Z.of_nat (len (drop_duplicates d))
               - Z.of_nat (len (dropna (drop_duplicates d))))%Z = Z.of_nat n)
        as Hcount by lia
  end.
  exact Hcount.
Qed.

End SummaryProperties.

(** ** The output path of [clean_data] *)

Lemma str_drop_0 s : str_drop 0 s = s.
Proof. by destruct s. Qed.

Lemma str_replace_from_skip k old new s :
  str_replace_from k old new s = str_replace (str_drop k s) old new.
Proof.
  unfold str_replace. revert k.
  induction s as [|c s IH]; intros [|k]; try done.
  simpl. apply IH.
Qed.

(** [replace] rewrites the first occurrence and goes on with what follows
    it; a string without occurrence is returned as it is. *)
Lemma str_replace_unfold s old new :
  old ≠ EmptyString →
  str_replace s old new =
    match str_find s old with
    | None => s
    | Some i =>
        str_take i s +:+ new
          +:+ str_replace (str_drop (i + String.length old) s) old new
    end.
Proof.
  intros Hold. destruct old as [|a old]; [done|]. clear Hold.
  induction s as [|c s IH]; [done|].
  unfold str_replace in *. cbn [str_replace_from str_find].
  destruct (starts_with (String c s) (String a old)) eqn:Hstart.
  - cbn [String.length str_take str_drop Nat.add Nat.sub].
    rewrite Nat.sub_0_r. by rewrite str_replace_from_skip.
  - rewrite IH. destruct (str_find s (String a old)) as [i|]; simpl; [|done].
    done.
Qed.

Section CleanData.
Context {V : Type} `{!EqDecision V}.
Context (parse_csv : csv V → option (csv V)).
Context (writable : gmap string (csv V) → string → bool).
Implicit Types (w : world V).

(** One call of [clean_data] on a file that is there and that the parser
    accepts: the frame [read_csv] builds, the object [clean] copies it to,
    and the file written if the path can be. *)
Lemma clean_data_run filepath output_filepath rd rn w content header records :
  files w !! filepath = Some content →
  parse_csv content = Some (header, records) →
  let d := Frame header (imap Row records) in
  let d' := cleaned (Build_AutoDataClean rd rn) d in
  let l := fresh (dom (heap w)) in
  let out := fresh (dom (<[l := d]> (heap w))) in
  let path := match output_filepath with
              | None => str_replace filepath ".csv" "_cleaned.csv"
              | Some p => p
              end in
  clean_data parse_csv writable filepath output_filepath rd rn w =
    if writable (files w) path
    then Some (out,
               World (<[out := d']> (<[l := d]> (heap w)))
                     ((stdout w ++ report (Build_AutoDataClean rd rn) d)
                        ++ [Saved_to path])
                     (<[path := (columns d', cells <$> rows d')]> (files w)))
    else None.
Proof.
  intros Hfile Hparse d d' l out path. unfold clean_data.
  set (w1 := World (<[l := d]> (heap w)) (stdout w) (files w)).
  assert (read_csv parse_csv filepath w = Some (l, w1)) as Hread.
  { unfold read_csv. by rewrite Hfile, Hparse. }
  assert (heap w1 !! l = Some d) as Hl by apply lookup_insert_eq.
  pose proof (clean_run (Build_AutoDataClean rd rn) l false w1 d Hl) as Hclean.
  rewrite (bind_run _ _ _ _ _ Hread), (bind_run _ _ _ _ _ Hclean).
  unfold to_csv. rewrite bind_assoc_run.
  erewrite bind_run; last first.
  { unfold deref. cbn [heap]. by rewrite lookup_insert_eq. }
  unfold mbind, M_bind, write_file. subst w1 path.
  cbn [heap stdout files target]. by destruct (writable (files w) _).
Qed.

End CleanData.

(** ** The sample data, worked out *)

Section ExampleFacts.
Import Example.
Local Open Scope Z_scope.

(** C1, as amended: on the seven rows of [example.py], [get_summary]
    returns 7 rows in total, 2 duplicate rows and 4 rows with nulls; [clean]
    with both flags on removes 2 duplicate rows, then 3 rows with nulls out
    of the 5 that remain, and returns 2 rows: it prints 2 duplicates
    removed, 3 rows with nulls removed, 7 original rows, 2 final rows. *)
Theorem example_summary_and_clean :
  (∃ s,
      get_summary AutoDataClean_default 1 w0 = Some (s, w0) ∧
      total_rows s = 7%nat ∧ duplicate_rows s = 2%nat ∧
      rows_with_nulls s = 4%nat) ∧
  (∃ out w' d',
      clean AutoDataClean_default 1 false w0 = Some (out, w') ∧
      heap w' !! out = Some d' ∧
      len (drop_duplicates df) = 5%nat ∧
      stdout w' = [Removed_duplicate_rows 2; Removed_null_rows 3;
                   Cleaning_complete 7 2] ∧
      rows d' =
        [ Row 0 [Some (Num 1); Some (Str "Alice"); Some (Num 25);
                 Some (Num 50000)];
          Row 1 [Some (Num 2); Some (Str "Bob"); Some (Num 30);
                 Some (Num 60000)] ]).
Proof.
  split.
  - eexists. split; [reflexivity|]. by vm_compute.
  - eexists _, _, _. split; [by apply (clean_run _ _ _ _ df)|].
    cbn [heap stdout]. split; [apply lookup_insert_eq|]. by vm_compute.
Qed.

(** The figures the scenario of the specification gives (2 rows with nulls,
    2 rows removed for nulls, 3 final rows) are not the ones computed. *)
Lemma example_scenario_figures_fail :
  ¬ ((∃ s w1,
        get_summary AutoDataClean_default 1 w0 = Some (s, w1) ∧
        total_rows s = 7%nat ∧ duplicate_rows s = 2%nat ∧
        rows_with_nulls s = 2%nat) ∧
     (∃ out w',
        clean AutoDataClean_default 1 false w0 = Some (out, w') ∧
        stdout w' = [Removed_duplicate_rows 2; Removed_null_rows 2;
                     Cleaning_complete 7 3])).
Proof.
  intros [_ (out & w' & Hclean & Hout)].
  rewrite (clean_run _ _ _ _ df) in Hclean by done.
  injection Hclean as _ <-. cbn [stdout] in Hout.
  vm_compute in Hout. discriminate Hout.
Qed.

End ExampleFacts.

(** ** Instances on concrete data *)

Section Instances.
Import Example.
Local Open Scope Z_scope.

(** C7: the output path derived for [a.csv.csv], a file that is there, is
    not the input path with its first [.csv] replaced by [_cleaned.csv], the
    path [a_cleaned.csv.csv]: the second occurrence is replaced as well, and
    the data is saved to [a_cleaned.csv_cleaned.csv]. *)
Lemma clean_data_replaces_second_occurrence :
  ∃ out w',
    clean_data parse_plain every_path_writable "a.csv.csv" None true true w_csv
      = Some (out, w') ∧
    last (stdout w') = Some (Saved_to "a_cleaned.csv_cleaned.csv") ∧
    is_Some (files w' !! "a_cleaned.csv_cleaned.csv") ∧
    files w' !! spec_replace_first "a.csv.csv" ".csv" "_cleaned.csv" = None ∧
    spec_replace_first "a.csv.csv" ".csv" "_cleaned.csv" = "a_cleaned.csv.csv" ∧
    str_replace "a.csv.csv" ".csv" "_cleaned.csv"
      ≠ spec_replace_first "a.csv.csv" ".csv" "_cleaned.csv".
Proof.
  pose proof (clean_data_run parse_plain every_path_writable "a.csv.csv" None
                true true w_csv (columns df, cells <$> rows df)
                (columns df) (cells <$> rows df) eq_refl eq_refl) as Hrun.
  cbv zeta in Hrun. unfold every_path_writable at 2 in Hrun.
  eexists _, _. split; [exact Hrun|]. cbn [files stdout].
  split; [apply last_snoc|]. split.
  { rewrite lookup_insert_eq. by eexists. }
  split; [by vm_compute|]. split; [by vm_compute|]. by vm_compute.
Qed.

(** On three rows without columns the duplicate figure of [get_summary] is
    0, while two of the rows have, in every column, the value of an earlier
    row. *)
Lemma get_summary_no_columns_duplicates :
  ∃ s,
    get_summary AutoDataClean_default 1 w_no_columns = Some (s, w_no_columns) ∧
    duplicate_rows s = 0%nat ∧
    length (filter (spec_duplicate (rows no_columns_df))
                   (seq 0 (length (rows no_columns_df)))) = 2%nat ∧
    duplicate_rows s ≠
      length (filter (spec_duplicate (rows no_columns_df))
                     (seq 0 (length (rows no_columns_df)))).
Proof.
  eexists. split; [reflexivity|].
  cbn [duplicate_rows]. split; [by vm_compute|]. split; [by vm_compute|].
  by vm_compute.
Qed.

Lemma clean_row_counts_monotone_witness :
  heap w0 !! 1%positive = Some df ∧
  ∃ out w' d',
    clean AutoDataClean_default 1 false w0 = Some (out, w') ∧
    heap w' !! out = Some d' ∧
    d' = after_nulls AutoDataClean_default
           (after_duplicates AutoDataClean_default df) ∧
    stdout w' = stdout w0 ++ report AutoDataClean_default df ∧
    (len d' ≤ len (after_duplicates AutoDataClean_default df))%nat ∧
    (len (after_duplicates AutoDataClean_default df) ≤ len df)%nat ∧
    (len d' ≤ len df)%nat.
Proof.
  split; [reflexivity|].
  apply (clean_row_counts_monotone AutoDataClean_default 1 false w0 df).
  reflexivity.
Defined.

Lemma clean_idempotent_witness :
  heap w0 !! 1%positive = Some df ∧
  ∃ out w1 out' w2 d1,
    clean AutoDataClean_default 1 false w0 = Some (out, w1) ∧
    heap w1 !! out = Some d1 ∧
    clean AutoDataClean_default out false w1 = Some (out', w2) ∧
    heap w2 !! out' = Some d1 ∧
    stdout w2 = stdout w1 ++ idle_report AutoDataClean_default (len d1).
Proof.
  split; [reflexivity|].
  apply (clean_idempotent AutoDataClean_default 1 false false w0 df).
  reflexivity.
Defined.

Lemma clean_copy_or_mutate_witness :
  heap w0 !! 1%positive = Some df ∧
  (∃ out w',
      clean AutoDataClean_default 1 false w0 = Some (out, w') ∧
      heap w' !! 1%positive = Some df ∧
      (∀ l, is_Some (heap w0 !! l) → heap w' !! l = heap w0 !! l) ∧
      out ≠ 1%positive ∧
      heap w' !! out = Some (cleaned AutoDataClean_default df)) ∧
  (∃ w',
      clean AutoDataClean_default 1 true w0 = Some (1%positive, w') ∧
      heap w' !! 1%positive = Some (cleaned AutoDataClean_default df) ∧
      (∀ l, l ≠ 1%positive → heap w' !! l = heap w0 !! l)).
Proof.
  split; [reflexivity|].
  apply (clean_copy_or_mutate AutoDataClean_default 1 w0 df).
  reflexivity.
Defined.

Lemma get_summary_counts_witness :
  heap w0 !! 1%positive = Some df ∧
  columns df ≠ [] ∧
  NoDup (columns df) ∧
  (∃ s,
      get_summary AutoDataClean_default 1 w0 = Some (s, w0) ∧
      total_rows s = length (rows df) ∧
      (columns df ≠ [] →
         duplicate_rows s =
           length (filter (spec_duplicate (rows df))
                          (seq 0 (length (rows df))))) ∧
      rows_with_nulls s = length (filter (λ r, None ∈ cells r) (rows df)) ∧
      (NoDup (columns df) → ∀ j c, columns df !! j = Some c →
         null_counts_per_column s !! c =
           Some (length (filter (λ r, cells r !! j = Some None) (rows df))))) ∧
  (∃ (d0 : DataFrame value) i,
      spec_duplicate (rows d0) i ∧ spec_has_null (rows d0) i).
Proof.
  split; [reflexivity|]. split; [done|].
  split; [by apply (bool_decide_unpack (NoDup (columns df))); vm_compute|].
  apply (get_summary_counts AutoDataClean_default 1 w0 df).
  reflexivity.
Defined.

Lemma clean_duplicates_before_nulls_witness :
  heap w0 !! 1%positive = Some df ∧
  columns df ≠ [] ∧
  ∃ out w',
    clean (Build_AutoDataClean true true) 1 false w0 = Some (out, w') ∧
    heap w' !! out = Some (dropna (drop_duplicates df)) ∧
    stdout w' = stdout w0 ++
      [ Removed_duplicate_rows
          (Z.of_nat (len df) - Z.of_nat (len (drop_duplicates df)));
        Removed_null_rows
          (Z.of_nat (len (drop_duplicates df))
           - Z.of_nat (len (dropna (drop_duplicates df))));
        Cleaning_complete (len df) (len (dropna (drop_duplicates df))) ] ∧
    (columns df ≠ [] →
       Z.of_nat (len df) - Z.of_nat (len (drop_duplicates df)) =
         Z.of_nat (length (filter (spec_duplicate (rows df)) (seq 0 (len df)))) ∧
       Z.of_nat (len (drop_duplicates df))
        - Z.of_nat (len (dropna (drop_duplicates df))) =
         Z.of_nat (length (filter (λ i, ¬ spec_duplicate (rows df) i
                                        ∧ spec_has_null (rows df) i)
                                  (seq 0 (len df))))).
Proof.
  split; [reflexivity|]. split; [done|].
  apply (clean_duplicates_before_nulls 1 false w0 df).
  reflexivity.
Defined.

Lemma clean_passthrough_witness :
  heap w0 !! 1%positive = Some df ∧
  ∃ out w',
    clean (Build_AutoDataClean false false) 1 false w0 = Some (out, w') ∧
    heap w' !! out = Some df ∧
    stdout w' = stdout w0 ++ [Cleaning_complete (len df) (len df)] ∧
    (false = true → out = 1%positive) ∧
    (false = false →
       out ≠ 1%positive ∧ heap w0 !! out = None ∧
       heap w' !! 1%positive = Some df).
Proof.
  split; [reflexivity|].
  apply (clean_passthrough 1 false w0 df).
  reflexivity.
Defined.

Lemma clean_never_fails_witness :
  heap w_empty !! 1%positive = Some empty_df ∧
  rows empty_df = [] ∧
  ∃ out w',
    clean AutoDataClean_default 1 false w_empty = Some (out, w') ∧
    heap w' !! out = Some empty_df ∧
    stdout w' = stdout w_empty ++
      (if remove_duplicates AutoDataClean_default
       then [Removed_duplicate_rows 0] else []) ++
      (if remove_nulls AutoDataClean_default
       then [Removed_null_rows 0] else []) ++
      [Cleaning_complete 0 0].
Proof.
  split; [reflexivity|]. split; [reflexivity|].
  apply (clean_never_fails AutoDataClean_default 1 false w_empty empty_df);
    reflexivity.
Defined.

Lemma clean_preserves_columns_and_rows_witness :
  heap w0 !! 1%positive = Some df ∧
  ∃ out w' d',
    clean AutoDataClean_default 1 false w0 = Some (out, w') ∧
    heap w' !! out = Some d' ∧
    columns d' = columns df ∧
    rows d' `sublist_of` rows df ∧
    (∀ r, r ∈ rows d' → r ∈ rows df).
Proof.
  split; [reflexivity|].
  apply (clean_preserves_columns_and_rows AutoDataClean_default 1 false w0 df).
  reflexivity.
Defined.

End Instances.

(** * Further properties *)

(** ** Counts *)

Section Counts.
Context {V : Type} `{!EqDecision V}.
Implicit Types (self : AutoDataClean) (d : DataFrame V) (w : world V).
Implicit Types (df out : positive) (inplace : bool).

Lemma series_sum_le (s : list bool) : series_sum s ≤ length s.
Proof. induction s as [|[] s IH]; simpl; lia. Qed.

Lemma series_sum_fmap_mono {A} (f g : A → bool) (l : list A) :
  (∀ x, f x = true → g x = true) →
  series_sum (f <$> l) ≤ series_sum (g <$> l).
Proof.
  intros Hfg. induction l as [|x l IH]; [done|].
  cbn [fmap list_fmap series_sum].
  destruct (f x) eqn:Hf, (g x) eqn:Hg; try lia.
  specialize (Hfg x Hf). congruence.
Qed.

Lemma filter_length_sublist {A} (P : A → Prop) `{!∀ x, Decision (P x)}
    (l1 l2 : list A) :
  l1 `sublist_of` l2 → length (filter P l1) ≤ length (filter P l2).
Proof.
  induction 1 as [|x l1 l2 _ IH|x l1 l2 _ IH]; [done|..];
    rewrite ?(filter_cons P x l1), (filter_cons P x l2);
    case_decide; simpl; lia.
Qed.

(** The first row is never flagged. *)
Lemma duplicated_lt d : 0 < len d → series_sum (duplicated d) < len d.
Proof.
  unfold duplicated, len. destruct (empty d); [done|].
  destruct (rows d) as [|r rs]; [simpl; lia|]. intros _.
  cbn [duplicated_from]. rewrite decide_False by apply not_elem_of_nil.
  cbn [series_sum length].
  pose proof (series_sum_le (duplicated_from [cells r] rs)) as Hle.
  rewrite duplicated_from_length in Hle. lia.
Qed.

Lemma rows_with_nulls_count d :
  series_sum (any_axis1 (isnull d)) =
  length (filter (λ r, None ∈ cells r) (rows d)).
Proof. rewrite any_isnull. apply series_sum_fmap, has_na_true. Qed.

(** A null in one column is a null in the row. *)
Lemma column_sum_le d j :
  series_sum ((λ bs, nth j bs false) <$> isnull d)
  ≤ series_sum (any_axis1 (isnull d)).
Proof.
  unfold any_axis1. apply series_sum_fmap_mono. intros bs Hj.
  apply existsb_exists. exists true. split; [|done].
  rewrite nth_lookup in Hj. destruct (bs !! j) as [b|] eqn:Hb; simpl in Hj;
    [subst b|done].
  by apply list_elem_of_In, (list_elem_of_lookup_2 _ j).
Qed.

Lemma to_dict_from_elem (s : list (string * nat)) (m : gmap string nat) c n :
  fold_left (λ acc kv, <[kv.1 := kv.2]> acc) s m !! c = Some n →
  (c, n) ∈ s ∨ m !! c = Some n.
Proof.
  revert m. induction s as [|[k v] s IH]; intros m Hc; [by right|].
  simpl in Hc. apply IH in Hc as [Hin|Hm].
  - left. by apply list_elem_of_further.
  - destruct (decide (k = c)) as [->|Hne].
    + rewrite lookup_insert_eq in Hm. simplify_eq. left. apply list_elem_of_here.
    + rewrite lookup_insert_ne in Hm by done. by right.
Qed.

Lemma to_dict_from_is_Some (s : list (string * nat)) (m : gmap string nat) c :
  is_Some (fold_left (λ acc kv, <[kv.1 := kv.2]> acc) s m !! c) ↔
  c ∈ s.*1 ∨ is_Some (m !! c).
Proof.
  revert m. induction s as [|[k v] s IH]; intros m; simpl.
  { split; [by right|]. intros [Hin|?]; [|done]. by apply elem_of_nil in Hin. }
  rewrite IH, elem_of_cons. destruct (decide (k = c)) as [->|Hne].
  - rewrite lookup_insert_eq. split; [intros _; left; by left|].
    intros _. right. by eexists.
  - rewrite lookup_insert_ne by done.
    split; [intros [?|?]; [left; by right|by right]|].
    intros [[?|?]|?]; [congruence|by left|by right].
Qed.

Lemma to_dict_keys (s : list (string * nat)) c :
  is_Some (to_dict s !! c) ↔ c ∈ s.*1.
Proof.
  unfold to_dict. rewrite to_dict_from_is_Some, lookup_empty.
  split; [intros [?|[? ?]]; done|by left].
Qed.

Lemma to_dict_elem (s : list (string * nat)) c n :
  to_dict s !! c = Some n → (c, n) ∈ s.
Proof.
  unfold to_dict. intros [?|Hm]%to_dict_from_elem; [done|].
  by rewrite lookup_empty in Hm.
Qed.

Lemma frame_sum_elem cols (m : list (list bool)) c n :
  (c, n) ∈ frame_sum cols m →
  ∃ j, cols !! j = Some c ∧ n = series_sum ((λ bs, nth j bs false) <$> m).
Proof.
  intros [j Hj]%list_elem_of_lookup. exists j. unfold frame_sum in Hj.
  rewrite list_lookup_imap in Hj. destruct (cols !! j); by simplify_eq/=.
Qed.

Lemma get_summary_run self df w d :
  heap w !! df = Some d →
  get_summary self df w =
    Some (Summary (len d) (series_sum (duplicated d))
            (series_sum (any_axis1 (isnull d)))
            (to_dict (frame_sum (columns d) (isnull d))), w).
Proof.
  intros Hd. unfold get_summary, deref, mbind, M_bind. by rewrite Hd.
Qed.

(** X1: the lines [clean] prints add up: a stage that is on prints a count
    that is not negative, and the original row count is the final row count
    plus the rows the stages report as removed. *)
Theorem clean_report_adds_up self df inplace w d :
  heap w !! df = Some d →
  ∃ out w' d' (duplicates_removed nulls_removed : nat),
    clean self df inplace w = Some (out, w') ∧
    heap w' !! out = Some d' ∧
    stdout w' = stdout w ++
      (if remove_duplicates self
       then [Removed_duplicate_rows (Z.of_nat duplicates_removed)] else []) ++
      (if remove_nulls self
       then [Removed_null_rows (Z.of_nat nulls_removed)] else []) ++
      [Cleaning_complete (len d) (len d')] ∧
    (remove_duplicates self = false → duplicates_removed = 0) ∧
    (remove_nulls self = false → nulls_removed = 0) ∧
    len d = len d' + duplicates_removed + nulls_removed.
Proof.
  intros Hd.
  eexists (target inplace w df), _, (cleaned self d),
    (len d - len (after_duplicates self d)),
    (len (after_duplicates self d) - len (cleaned self d)).
  split; [by apply clean_run|]. cbn [heap stdout].
  split; [apply lookup_insert_eq|].
  pose proof (after_duplicates_len self d) as Hdup.
  pose proof (after_nulls_len self (after_duplicates self d)) as Hna.
  fold (cleaned self d) in Hna.
  split; [|split; [|split]].
  - f_equal. unfold report. rewrite !Nat2Z.inj_sub by done.
    unfold cleaned, after_nulls, after_duplicates.
    by destruct (remove_duplicates self), (remove_nulls self).
  - unfold after_duplicates. intros ->. lia.
  - unfold cleaned, after_nulls. intros ->. lia.
  - lia.
Qed.

(** X2: [get_summary] tells what [clean] will print: its duplicate figure
    is the count the duplicate stage reports; its null-row figure is the
    count the null stage reports when duplicates are kept, and an upper bound
    of it when duplicates are removed first. *)
Theorem get_summary_predicts_clean self df inplace w d :
  heap w !! df = Some d →
  ∃ s out w' d' (nulls_removed : nat),
    get_summary self df w = Some (s, w) ∧
    clean self df inplace w = Some (out, w') ∧
    heap w' !! out = Some d' ∧
    stdout w' = stdout w ++
      (if remove_duplicates self
       then [Removed_duplicate_rows (Z.of_nat (duplicate_rows s))] else []) ++
      (if remove_nulls self
       then [Removed_null_rows (Z.of_nat nulls_removed)] else []) ++
      [Cleaning_complete (total_rows s) (len d')] ∧
    nulls_removed ≤ rows_with_nulls s ∧
    (remove_duplicates self = false → nulls_removed = rows_with_nulls s).
Proof.
  intros Hd.
  eexists _, (target inplace w df), _, (cleaned self d),
    (series_sum (any_axis1 (isnull (after_duplicates self d)))).
  split; [by apply get_summary_run|]. split; [by apply clean_run|].
  cbn [heap stdout total_rows duplicate_rows rows_with_nulls].
  split; [apply lookup_insert_eq|]. split; [|split].
  - f_equal. unfold report.
    pose proof (drop_duplicates_count d).
    pose proof (dropna_count (after_duplicates self d)).
    replace (Z.of_nat (len d) - Z.of_nat (len (drop_duplicates d)))%Z
      with (Z.of_nat (series_sum (duplicated d))) by lia.
    replace (Z.of_nat (len (after_duplicates self d))
             - Z.of_nat (len (dropna (after_duplicates self d))))%Z
      with (Z.of_nat (series_sum (any_axis1 (isnull (after_duplicates self d)))))
      by lia.
    done.
  - rewrite !rows_with_nulls_count.
    apply filter_length_sublist, after_duplicates_sublist.
  - unfold after_duplicates. by intros ->.
Qed.

(** X3: the figures of [get_summary] bound one another: the rows with nulls
    are at most all rows; in a frame with rows the duplicates are fewer than
    the rows; the dictionary has an entry for a name exactly when the name is
    a column; and no column has more nulls than there are rows with nulls. *)
Theorem get_summary_bounds self df w d :
  heap w !! df = Some d →
  ∃ s,
    get_summary self df w = Some (s, w) ∧
    rows_with_nulls s ≤ total_rows s ∧
    (0 < total_rows s → duplicate_rows s < total_rows s) ∧
    (∀ c, is_Some (null_counts_per_column s !! c) ↔ c ∈ columns d) ∧
    (∀ c n, null_counts_per_column s !! c = Some n → n ≤ rows_with_nulls s).
Proof.
  intros Hd. eexists. split; [by apply get_summary_run|].
  cbn [total_rows duplicate_rows rows_with_nulls null_counts_per_column].
  split; [|split; [|split]].
  - pose proof (dropna_count d). lia.
  - apply duplicated_lt.
  - intros c. by rewrite to_dict_keys, frame_sum_keys.
  - intros c n (j & _ & ->)%to_dict_elem%frame_sum_elem. apply column_sum_le.
Qed.

(** X4: a summary taken after [clean] shows the work done: with duplicate
    removal on it counts no duplicate row, and with null removal on it
    counts no row with nulls and no null in any column. *)
Theorem get_summary_after_clean self df inplace w d :
  heap w !! df = Some d →
  ∃ out w' s,
    clean self df inplace w = Some (out, w') ∧
    get_summary self out w' = Some (s, w') ∧
    (remove_duplicates self = true → duplicate_rows s = 0) ∧
    (remove_nulls self = true →
       rows_with_nulls s = 0 ∧
       ∀ c n, null_counts_per_column s !! c = Some n → n = 0).
Proof.
  intros Hd. eexists _, _, _. split; [by apply clean_run|].
  split; [apply get_summary_run; cbn [heap]; apply lookup_insert_eq|].
  cbn [duplicate_rows rows_with_nulls null_counts_per_column].
  pose proof (after_duplicates_cleaned self d) as Hdup.
  pose proof (after_nulls_cleaned self d) as Hna.
  split.
  - intros Hrd. unfold after_duplicates in Hdup. rewrite Hrd in Hdup.
    pose proof (drop_duplicates_count (cleaned self d)) as Hc.
    rewrite Hdup in Hc. lia.
  - intros Hrn. unfold after_nulls in Hna. rewrite Hrn in Hna.
    pose proof (dropna_count (cleaned self d)) as Hc. rewrite Hna in Hc.
    assert (series_sum (any_axis1 (isnull (cleaned self d))) = 0) as H0 by lia.
    split; [done|].
    intros c n (j & _ & ->)%to_dict_elem%frame_sum_elem.
    pose proof (column_sum_le (cleaned self d) j). lia.
Qed.

End Counts.

(** ** Which rows survive *)

Section Survivors.
Context {V : Type} `{!EqDecision V}.
Implicit Types (self : AutoDataClean) (d : DataFrame V) (w : world V).
Implicit Types (df out : positive) (inplace : bool).
Implicit Types (r : row V) (rs : list (row V)).
Implicit Types (seen : list (list (cell V))).

Lemma filter_length_pos {A} (P : A → Prop) `{!∀ x, Decision (P x)}
    (l : list A) :
  0 < length (filter P l) ↔ ∃ x, x ∈ l ∧ P x.
Proof.
  split.
  - destruct (filter P l) as [|x l'] eqn:Hf; simpl; [lia|]. intros _.
    assert (x ∈ filter P l) as Hx by (rewrite Hf; apply list_elem_of_here).
    apply list_elem_of_filter in Hx as [? ?]. by exists x.
  - intros (x & Hx & HP).
    assert (x ∈ filter P l) as Hin by by apply list_elem_of_filter.
    destruct (filter P l); [by apply elem_of_nil in Hin|simpl; lia].
Qed.

Lemma sublist_filter_mono {A} (P : A → Prop) `{!∀ x, Decision (P x)}
    (l1 l2 : list A) :
  l1 `sublist_of` l2 → filter P l1 `sublist_of` filter P l2.
Proof.
  induction 1 as [|x l1 l2 _ IH|x l1 l2 _ IH]; [done|..];
    rewrite ?(filter_cons P x l1), (filter_cons P x l2); case_decide;
    try done; by constructor.
Qed.

(** [drop_duplicates] keeps the rows at the positions that repeat no
    earlier row. *)
Lemma drop_duplicates_elem d r :
  columns d ≠ [] →
  r ∈ rows (drop_duplicates d) ↔
  ∃ i, rows d !! i = Some r ∧ ¬ spec_duplicate (rows d) i.
Proof.
  intros Hcols.
  trans (0 < length (filter (λ r', r' = r) (rows (drop_duplicates d)))).
  { rewrite filter_length_pos. split; [intros ?; by exists r|].
    by intros (r' & ? & ->). }
  rewrite drop_duplicates_positions by done. rewrite filter_length_pos.
  split.
  - intros (i & _ & Hnd & Hat). exists i. unfold holds_at in Hat.
    destruct (rows d !! i) as [r'|]; simpl in Hat; [by subst r'|done].
  - intros (i & Hi & Hnd). exists i. split; [|split; [done|]].
    + apply elem_of_seq. apply lookup_lt_Some in Hi. unfold len. lia.
    + unfold holds_at. by rewrite Hi.
Qed.

Lemma dropna_elem d r : r ∈ rows (dropna d) ↔ r ∈ rows d ∧ None ∉ cells r.
Proof. rewrite dropna_rows, list_elem_of_filter, has_na_false. tauto. Qed.

(** The scan keeps one row for each tuple that is new to it. *)
Lemma dedup_from_tuples seen rs x :
  x ∈ cells <$> dedup_from seen rs ↔ x ∈ cells <$> rs ∧ x ∉ seen.
Proof.
  revert seen. induction rs as [|r rs IH]; intros seen.
  { unfold dedup_from. simpl. split; [by intros ?%elem_of_nil|].
    by intros [?%elem_of_nil _]. }
  rewrite dedup_from_cons, fmap_cons, elem_of_cons. case_decide as Hin.
  - rewrite IH. split; [intros [? ?]; split; [by right|done]|].
    intros [[->|?] ?]; done.
  - rewrite fmap_cons, elem_of_cons, IH, not_elem_of_cons.
    destruct (decide (x = cells r)) as [->|Hne]; [|tauto].
    split; [|tauto]. intros _. split; [by left|done].
Qed.

Lemma drop_duplicates_tuples d x :
  columns d ≠ [] →
  x ∈ cells <$> rows (drop_duplicates d) ↔ x ∈ cells <$> rows d.
Proof.
  intros Hcols. destruct (empty d) eqn:He.
  - by rewrite drop_duplicates_id by by left.
  - rewrite drop_duplicates_rows, dedup_from_tuples by done.
    split; [tauto|]. intros ?. split; [done|apply not_elem_of_nil].
Qed.

(** Filtering the nulls out before or after the scan is the same, as long
    as the two scans start from the same tuples without nulls. *)
Lemma dedup_from_filter seen seen' rs :
  (∀ x, None ∉ x → x ∈ seen ↔ x ∈ seen') →
  dedup_from seen (filter (λ r, has_na r = false) rs) =
  filter (λ r, has_na r = false) (dedup_from seen' rs).
Proof.
  revert seen seen'. induction rs as [|r rs IH]; intros seen seen' Hseen; [done|].
  rewrite (dedup_from_cons seen'). destruct (has_na r) eqn:Hr.
  - rewrite filter_cons_False by congruence.
    assert (None ∈ cells r) as Hnull by by apply has_na_true.
    case_decide.
    + by apply IH.
    + rewrite filter_cons_False by congruence. apply IH.
      intros x Hx. rewrite elem_of_cons, Hseen by done.
      split; [tauto|]. intros [->|?]; done.
  - rewrite filter_cons_True by done. rewrite dedup_from_cons.
    assert (cells r ∈ seen ↔ cells r ∈ seen') as Hiff
      by by apply Hseen, has_na_false.
    destruct (decide (cells r ∈ seen)) as [Hin|Hin];
      [rewrite decide_True by tauto | rewrite decide_False by tauto].
    + by apply IH.
    + rewrite filter_cons_True by done. f_equal. apply IH.
      intros x Hx. rewrite !elem_of_cons, Hseen by done. done.
Qed.

Lemma dropna_columns d : columns (dropna d) = columns d.
Proof. done. Qed.

Lemma frame_eq d1 d2 :
  columns d1 = columns d2 → rows d1 = rows d2 → d1 = d2.
Proof. destruct d1, d2; simpl; by intros -> ->. Qed.

(** The two stages commute on frames. *)
Lemma drop_duplicates_dropna d :
  drop_duplicates (dropna d) = dropna (drop_duplicates d).
Proof.
  destruct (empty d) eqn:He.
  { rewrite (drop_duplicates_id d) by by left.
    apply drop_duplicates_id. apply (deduplicated_sublist d);
      [done|apply dropna_sublist|by left]. }
  apply frame_eq.
  { by rewrite drop_duplicates_columns, !dropna_columns,
      drop_duplicates_columns. }
  rewrite (dropna_rows (drop_duplicates d)), (drop_duplicates_rows d) by done.
  destruct (empty (dropna d)) eqn:Hna.
  - rewrite (drop_duplicates_id (dropna d)) by by left.
    apply empty_true in Hna as [Hrows|Hcols];
      [|by apply empty_false in He as [_ ?]].
    rewrite Hrows. symmetry. apply sublist_nil_r. rewrite <-Hrows, dropna_rows.
    apply sublist_filter_mono, boolean_mask_sublist.
  - rewrite drop_duplicates_rows, dropna_rows by done.
    by apply dedup_from_filter.
Qed.

End Survivors.

Section SurvivorProperties.
Context {V : Type} `{!EqDecision V}.
Implicit Types (self : AutoDataClean) (d : DataFrame V) (w : world V).
Implicit Types (df out : positive) (inplace : bool).
Implicit Types (r : row V).

(** X5: on a frame with a column, [clean] keeps exactly the rows that pass
    the stages that are on: a row of the input is in the result when it sits
    at a position that repeats no earlier row (duplicate removal on) and holds
    no null (null removal on), and the result has no other row. *)
Theorem clean_keeps_exactly self df inplace w d :
  heap w !! df = Some d →
  columns d ≠ [] →
  ∃ out w' d',
    clean self df inplace w = Some (out, w') ∧
    heap w' !! out = Some d' ∧
    ∀ r, r ∈ rows d' ↔
         ∃ i, rows d !! i = Some r ∧
              (remove_duplicates self = true → ¬ spec_duplicate (rows d) i) ∧
              (remove_nulls self = true → None ∉ cells r).
Proof.
  intros Hd Hcols. eexists _, _, _. split; [by apply clean_run|]. cbn [heap].
  split; [apply lookup_insert_eq|]. intros r.
  unfold cleaned, after_nulls, after_duplicates.
  destruct (remove_duplicates self), (remove_nulls self).
  - rewrite dropna_elem, drop_duplicates_elem by done. split.
    + intros [(i & ? & ?) ?]. by exists i.
    + intros (i & ? & Hdup & Hna). split; [exists i|]; auto.
  - rewrite drop_duplicates_elem by done. split.
    + intros (i & ? & ?). by exists i.
    + intros (i & ? & Hdup & _). exists i. auto.
  - rewrite dropna_elem, list_elem_of_lookup. split.
    + intros [[i ?] ?]. by exists i.
    + intros (i & ? & _ & Hna). split; [by exists i|auto].
  - rewrite list_elem_of_lookup. split.
    + intros [i ?]. by exists i.
    + intros (i & ? & _). by exists i.
Qed.

(** X6: duplicate removal loses no information: on a frame with a column,
    when it is on, the rows of the result differ pairwise in their cells,
    and the cell tuples found in the result are those of the input (those
    without a null, when null removal is on as well). *)
Theorem clean_keeps_one_row_per_tuple self df inplace w d :
  heap w !! df = Some d →
  columns d ≠ [] →
  remove_duplicates self = true →
  ∃ out w' d',
    clean self df inplace w = Some (out, w') ∧
    heap w' !! out = Some d' ∧
    NoDup (cells <$> rows d') ∧
    ∀ x, x ∈ cells <$> rows d' ↔
         x ∈ cells <$> rows d ∧ (remove_nulls self = true → None ∉ x).
Proof.
  intros Hd Hcols Hrd. eexists _, _, _. split; [by apply clean_run|].
  cbn [heap]. split; [apply lookup_insert_eq|].
  unfold cleaned, after_duplicates. rewrite Hrd.
  assert (NoDup (cells <$> rows (drop_duplicates d))) as Hnd.
  { destruct (empty d) eqn:He.
    - rewrite drop_duplicates_id by by left.
      apply empty_true in He as [Hrows|?]; [|done].
      rewrite Hrows. apply NoDup_nil_2.
    - rewrite drop_duplicates_rows by done. apply dedup_from_NoDup. }
  split.
  - apply (sublist_NoDup _ (cells <$> rows (drop_duplicates d))); [done|].
    apply fmap_sublist, after_nulls_sublist.
  - intros x. unfold after_nulls. destruct (remove_nulls self).
    + rewrite <-(drop_duplicates_tuples d x) by done.
      rewrite !list_elem_of_fmap. split.
      * intros (r & -> & [? ?]%dropna_elem). split; [by exists r|done].
      * intros [(r & -> & ?) Hna]. exists r. split; [done|].
        apply dropna_elem. auto.
    + rewrite drop_duplicates_tuples by done. split; [by intros ?|tauto].
Qed.

(** X7: the two single-stage cleaners, run one after the other in either
    order, return a frame with the content the two-stage cleaner returns:
    the order of the stages changes the counts printed, not the result. *)
Theorem single_stage_cleaners_compose df inplace inplace' w d :
  heap w !! df = Some d →
  ∃ out w1 both,
    clean (Build_AutoDataClean true true) df inplace w = Some (out, w1) ∧
    heap w1 !! out = Some both ∧
    (∃ o1 w2 o2 w3,
        clean (Build_AutoDataClean true false) df inplace w = Some (o1, w2) ∧
        clean (Build_AutoDataClean false true) o1 inplace' w2 = Some (o2, w3) ∧
        heap w3 !! o2 = Some both) ∧
    (∃ o1 w2 o2 w3,
        clean (Build_AutoDataClean false true) df inplace w = Some (o1, w2) ∧
        clean (Build_AutoDataClean true false) o1 inplace' w2 = Some (o2, w3) ∧
        heap w3 !! o2 = Some both).
Proof.
  intros Hd. eexists _, _, _. split; [by apply clean_run|]. cbn [heap].
  split; [apply lookup_insert_eq|].
  assert (∀ c (h : gmap positive (DataFrame V)),
    <[target inplace w df := c]> h !! target inplace w df = Some c) as Hout
    by (intros; apply lookup_insert_eq).
  split.
  - eexists _, _, _, _. split; [by apply clean_run|].
    split; [apply clean_run, Hout|]. cbn [heap]. by rewrite lookup_insert_eq.
  - eexists _, _, _, _. split; [by apply clean_run|].
    split; [apply clean_run, Hout|]. cbn [heap]. rewrite lookup_insert_eq.
    f_equal. unfold cleaned, after_nulls, after_duplicates.
    cbn [remove_duplicates remove_nulls]. apply drop_duplicates_dropna.
Qed.

(** X8: a frame in which the stages that are on find nothing (no two rows
    with the same cells for duplicate removal, no null for null removal)
    comes back with its content, and each such stage reports 0 rows
    removed. *)
Theorem clean_leaves_clean_frame self df inplace w d :
  heap w !! df = Some d →
  (remove_duplicates self = true → NoDup (cells <$> rows d)) →
  (remove_nulls self = true → Forall (λ r, None ∉ cells r) (rows d)) →
  ∃ out w',
    clean self df inplace w = Some (out, w') ∧
    heap w' !! out = Some d ∧
    stdout w' = stdout w ++
      (if remove_duplicates self then [Removed_duplicate_rows 0] else []) ++
      (if remove_nulls self then [Removed_null_rows 0] else []) ++
      [Cleaning_complete (len d) (len d)].
Proof.
  intros Hd Hdup Hna. eexists _, _. split; [by apply clean_run|].
  cbn [heap stdout].
  assert (after_duplicates self d = d) as Hd1.
  { unfold after_duplicates. destruct (remove_duplicates self); [|done].
    apply drop_duplicates_id. right. by apply Hdup. }
  assert (after_nulls self d = d) as Hd2.
  { unfold after_nulls. destruct (remove_nulls self); [|done].
    apply dropna_id. by apply Hna. }
  unfold cleaned. rewrite Hd1, Hd2. split; [apply lookup_insert_eq|].
  f_equal. by apply report_fixed.
Qed.

End SurvivorProperties.

(** ** Paths *)

Lemma str_length_app (s t : string) :
  String.length (s +:+ t) = String.length s + String.length t.
Proof. induction s as [|c s IH]; simpl; [done|]. by rewrite IH. Qed.

Lemma str_take_length n s :
  String.length (str_take n s) = n `min` String.length s.
Proof.
  revert s. induction n as [|n IH]; intros [|c s]; simpl; try done.
  by rewrite IH.
Qed.

Lemma str_drop_length n s :
  String.length (str_drop n s) = String.length s - n.
Proof.
  revert s. induction n as [|n IH]; intros [|c s]; simpl; done.
Qed.

Lemma str_take_app s t : str_take (String.length s) (s +:+ t) = s.
Proof. induction s as [|c s IH]; simpl; [by destruct t|]. by rewrite IH. Qed.

Lemma str_drop_all s : str_drop (String.length s) s = EmptyString.
Proof. induction s as [|c s IH]; simpl; done. Qed.

Lemma starts_with_length s old :
  starts_with s old = true → String.length old ≤ String.length s.
Proof.
  revert s. induction old as [|a old IH]; intros [|b s]; simpl; try done;
    try lia.
  case_decide; [|done]. intros ?%IH. lia.
Qed.

Lemma str_find_bound s old i :
  str_find s old = Some i → i + String.length old ≤ String.length s.
Proof.
  revert i. induction s as [|c s IH]; intros i; cbn [str_find].
  - destruct (starts_with "" old) eqn:Hs; [|done].
    intros [= <-]. by apply starts_with_length in Hs.
  - destruct (starts_with (String c s) old) eqn:Hs.
    + intros [= <-]. by apply starts_with_length in Hs.
    + destruct (str_find s old) as [j|]; simpl; [|done].
      intros [= <-]. specialize (IH j eq_refl). simpl. lia.
Qed.

(** Replacing by a longer string never shortens. *)
Lemma str_replace_from_length k old new s :
  0 < String.length old →
  String.length old ≤ String.length new →
  String.length s ≤ String.length (str_replace_from k old new s) + k.
Proof.
  intros Hold Hlen. revert k. induction s as [|c s IH]; intros k;
    cbn [str_replace_from String.length]; [lia|].
  destruct k as [|k].
  - destruct (starts_with (String c s) old) eqn:Hs.
    + rewrite str_length_app. specialize (IH (String.length old - 1)).
      apply starts_with_length in Hs. cbn [String.length] in Hs. lia.
    + cbn [String.length]. specialize (IH 0). lia.
  - specialize (IH k). lia.
Qed.

(** The path derived from a path with [.csv] in it is longer. *)
Lemma default_output_path_longer filepath i :
  str_find filepath ".csv" = Some i →
  String.length filepath
  < String.length (str_replace filepath ".csv" "_cleaned.csv").
Proof.
  intros Hi. rewrite str_replace_unfold, Hi by done.
  pose proof (str_find_bound _ _ _ Hi) as Hb. cbn [String.length] in Hb.
  rewrite !str_length_app, str_take_length. cbn [String.length].
  pose proof (str_replace_from_length 0 ".csv" "_cleaned.csv"
                (str_drop (i + 4) filepath)) as Hr.
  rewrite str_drop_length in Hr. cbn [String.length] in Hr.
  unfold str_replace. lia.
Qed.

Section CleanDataProperties.
Context {V : Type} `{!EqDecision V}.
Context (parse_csv : csv V → option (csv V)).
Context (writable : gmap string (csv V) → string → bool).
Implicit Types (w : world V).



(** X10: on an input path in which [.csv] first occurs at the very end, for
    a file that is there and that the parser accepts, [clean_data] without an
    output path derives the path with [_cleaned] put before the extension, as
    the docstring says.  If that path can be written, it saves there the
    columns and the cells of the cleaned frame it returns, and the input file
    stays as it was; if not, it raises. *)
Theorem clean_data_appends_cleaned_to_stem stem rd rn w content header records :
  files w !! (stem +:+ ".csv") = Some content →
  parse_csv content = Some (header, records) →
  str_find (stem +:+ ".csv") ".csv" = Some (String.length stem) →
  if writable (files w) (stem +:+ "_cleaned.csv")
  then
    ∃ out w' d',
      clean_data parse_csv writable (stem +:+ ".csv") None rd rn w
        = Some (out, w') ∧
      heap w' !! out = Some d' ∧
      d' = cleaned (Build_AutoDataClean rd rn)
             (Frame header (imap Row records)) ∧
      files w' = <[stem +:+ "_cleaned.csv" := (columns d', cells <$> rows d')]>
                   (files w) ∧
      files w' !! (stem +:+ ".csv") = Some content ∧
      last (stdout w') = Some (Saved_to (stem +:+ "_cleaned.csv"))
  else
    clean_data parse_csv writable (stem +:+ ".csv") None rd rn w = None.
Proof.
  intros Hfile Hparse Hfind.
  pose proof (clean_data_run parse_csv writable (stem +:+ ".csv") None rd rn w
                content header records Hfile Hparse) as Hrun.
  cbv zeta in Hrun.
  assert (str_replace (stem +:+ ".csv") ".csv" "_cleaned.csv"
          = stem +:+ "_cleaned.csv") as Hpath.
  { rewrite str_replace_unfold, Hfind by done.
    rewrite str_take_app. cbn [String.length].
    replace (String.length stem + 4)
      with (String.length (stem +:+ ".csv"))
      by (rewrite str_length_app; done).
    by rewrite str_drop_all. }
  rewrite Hpath in Hrun.
  destruct (writable (files w) (stem +:+ "_cleaned.csv")); [|exact Hrun].
  eexists _, _, _. split; [exact Hrun|]. cbn [heap stdout files].
  split; [apply lookup_insert_eq|]. split; [done|]. split; [done|].
  split; [|apply last_snoc].
  rewrite lookup_insert_ne; [done|].
  intros Heq%(inj (String.app stem)). discriminate Heq.
Qed.

(** X11: whenever the input path has [.csv] in it, the default output path
    differs from it.  For a file that is there and that the parser accepts,
    [clean_data] then saves the columns and the cells of the cleaned frame
    it returns at that other path and leaves the input file as it was, or
    raises if that path cannot be written. *)
Theorem clean_data_keeps_input_file filepath rd rn w content header records i :
  files w !! filepath = Some content →
  parse_csv content = Some (header, records) →
  str_find filepath ".csv" = Some i →
  str_replace filepath ".csv" "_cleaned.csv" ≠ filepath ∧
  if writable (files w) (str_replace filepath ".csv" "_cleaned.csv")
  then
    ∃ out w' d',
      clean_data parse_csv writable filepath None rd rn w = Some (out, w') ∧
      heap w' !! out = Some d' ∧
      d' = cleaned (Build_AutoDataClean rd rn)
             (Frame header (imap Row records)) ∧
      files w' = <[str_replace filepath ".csv" "_cleaned.csv" :=
                     (columns d', cells <$> rows d')]> (files w) ∧
      files w' !! filepath = Some content
  else
    clean_data parse_csv writable filepath None rd rn w = None.
Proof.
  intros Hfile Hparse Hfind.
  pose proof (clean_data_run parse_csv writable filepath None rd rn w
                content header records Hfile Hparse) as Hrun.
  cbv zeta in Hrun.
  assert (str_replace filepath ".csv" "_cleaned.csv" ≠ filepath) as Hne.
  { intros Heq. pose proof (default_output_path_longer filepath i Hfind) as Hl.
    rewrite Heq in Hl. lia. }
  split; [done|].
  destruct (writable (files w) (str_replace filepath ".csv" "_cleaned.csv"));
    [|exact Hrun].
  eexists _, _, _. split; [exact Hrun|]. cbn [heap files].
  split; [apply lookup_insert_eq|]. split; [done|]. split; [done|].
  by rewrite lookup_insert_ne.
Qed.

(** X12: when the input path has no [.csv] in it, the default output path
    is the input path itself: for a file that is there and that the parser
    accepts, [clean_data] replaces the input file by the columns and the cells
    of the cleaned frame it returns, or raises if the input path cannot be
    written. *)
Theorem clean_data_overwrites_other_extension filepath rd rn w content
    header records :
  files w !! filepath = Some content →
  parse_csv content = Some (header, records) →
  str_find filepath ".csv" = None →
  if writable (files w) filepath
  then
    ∃ out w' d',
      clean_data parse_csv writable filepath None rd rn w = Some (out, w') ∧
      heap w' !! out = Some d' ∧
      d' = cleaned (Build_AutoDataClean rd rn)
             (Frame header (imap Row records)) ∧
      last (stdout w') = Some (Saved_to filepath) ∧
      files w' = <[filepath := (columns d', cells <$> rows d')]> (files w) ∧
      files w' !! filepath = Some (columns d', cells <$> rows d')
  else
    clean_data parse_csv writable filepath None rd rn w = None.
Proof.
  intros Hfile Hparse Hfind.
  pose proof (clean_data_run parse_csv writable filepath None rd rn w
                content header records Hfile Hparse) as Hrun.
  cbv zeta in Hrun.
  assert (str_replace filepath ".csv" "_cleaned.csv" = filepath) as Hpath.
  { by rewrite str_replace_unfold, Hfind by done. }
  rewrite Hpath in Hrun.
  destruct (writable (files w) filepath); [|exact Hrun].
  eexists _, _, _. split; [exact Hrun|]. cbn [heap stdout files].
  split; [apply lookup_insert_eq|]. split; [done|].
  split; [apply last_snoc|]. split; [done|]. apply lookup_insert_eq.
Qed.

End CleanDataProperties.

(** ** Further instances on concrete data *)

Section FurtherInstances.
Import Example.
Local Open Scope Z_scope.

Lemma clean_report_adds_up_witness :
  heap w0 !! 1%positive = Some df ∧
  ∃ out w' d' (duplicates_removed nulls_removed : nat),
    clean AutoDataClean_default 1 false w0 = Some (out, w') ∧
    heap w' !! out = Some d' ∧
    stdout w' = stdout w0 ++
      (if remove_duplicates AutoDataClean_default
       then [Removed_duplicate_rows (Z.of_nat duplicates_removed)] else []) ++
      (if remove_nulls AutoDataClean_default
       then [Removed_null_rows (Z.of_nat nulls_removed)] else []) ++
      [Cleaning_complete (len df) (len d')] ∧
    (remove_duplicates AutoDataClean_default = false →
       duplicates_removed = 0%nat) ∧
    (remove_nulls AutoDataClean_default = false → nulls_removed = 0%nat) ∧
    len df = (len d' + duplicates_removed + nulls_removed)%nat.
Proof.
  split; [reflexivity|].
  apply (clean_report_adds_up AutoDataClean_default 1 false w0 df).
  reflexivity.
Defined.

Lemma get_summary_predicts_clean_witness :
  heap w0 !! 1%positive = Some df ∧
  ∃ s out w' d' (nulls_removed : nat),
    get_summary AutoDataClean_default 1 w0 = Some (s, w0) ∧
    clean AutoDataClean_default 1 false w0 = Some (out, w') ∧
    heap w' !! out = Some d' ∧
    stdout w' = stdout w0 ++
      (if remove_duplicates AutoDataClean_default
       then [Removed_duplicate_rows (Z.of_nat (duplicate_rows s))] else []) ++
      (if remove_nulls AutoDataClean_default
       then [Removed_null_rows (Z.of_nat nulls_removed)] else []) ++
      [Cleaning_complete (total_rows s) (len d')] ∧
    (nulls_removed ≤ rows_with_nulls s)%nat ∧
    (remove_duplicates AutoDataClean_default = false →
       nulls_removed = rows_with_nulls s).
Proof.
  split; [reflexivity|].
  apply (get_summary_predicts_clean AutoDataClean_default 1 false w0 df).
  reflexivity.
Defined.

Lemma get_summary_bounds_witness :
  heap w0 !! 1%positive = Some df ∧
  ∃ s,
    get_summary AutoDataClean_default 1 w0 = Some (s, w0) ∧
    (rows_with_nulls s ≤ total_rows s)%nat ∧
    ((0 < total_rows s)%nat → (duplicate_rows s < total_rows s)%nat) ∧
    (∀ c, is_Some (null_counts_per_column s !! c) ↔ c ∈ columns df) ∧
    (∀ c n, null_counts_per_column s !! c = Some n →
            (n ≤ rows_with_nulls s)%nat).
Proof.
  split; [reflexivity|].
  apply (get_summary_bounds AutoDataClean_default 1 w0 df).
  reflexivity.
Defined.

Lemma get_summary_after_clean_witness :
  heap w0 !! 1%positive = Some df ∧
  ∃ out w' s,
    clean AutoDataClean_default 1 false w0 = Some (out, w') ∧
    get_summary AutoDataClean_default out w' = Some (s, w') ∧
    (remove_duplicates AutoDataClean_default = true →
       duplicate_rows s = 0%nat) ∧
    (remove_nulls AutoDataClean_default = true →
       rows_with_nulls s = 0%nat ∧
       ∀ c n, null_counts_per_column s !! c = Some n → n = 0%nat).
Proof.
  split; [reflexivity|].
  apply (get_summary_after_clean AutoDataClean_default 1 false w0 df).
  reflexivity.
Defined.

Lemma clean_keeps_exactly_witness :
  heap w0 !! 1%positive = Some df ∧
  columns df ≠ [] ∧
  ∃ out w' d',
    clean AutoDataClean_default 1 false w0 = Some (out, w') ∧
    heap w' !! out = Some d' ∧
    ∀ r, r ∈ rows d' ↔
         ∃ i, rows df !! i = Some r ∧
              (remove_duplicates AutoDataClean_default = true →
                 ¬ spec_duplicate (rows df) i) ∧
              (remove_nulls AutoDataClean_default = true → None ∉ cells r).
Proof.
  split; [reflexivity|]. split; [done|].
  apply (clean_keeps_exactly AutoDataClean_default 1 false w0 df);
    [reflexivity|done].
Defined.

Lemma clean_keeps_one_row_per_tuple_witness :
  heap w0 !! 1%positive = Some df ∧
  columns df ≠ [] ∧
  remove_duplicates AutoDataClean_default = true ∧
  ∃ out w' d',
    clean AutoDataClean_default 1 false w0 = Some (out, w') ∧
    heap w' !! out = Some d' ∧
    NoDup (cells <$> rows d') ∧
    ∀ x, x ∈ cells <$> rows d' ↔
         x ∈ cells <$> rows df ∧
         (remove_nulls AutoDataClean_default = true → None ∉ x).
Proof.
  split; [reflexivity|]. split; [done|]. split; [reflexivity|].
  apply (clean_keeps_one_row_per_tuple AutoDataClean_default 1 false w0 df);
    [reflexivity|done|reflexivity].
Defined.

Lemma single_stage_cleaners_compose_witness :
  heap w0 !! 1%positive = Some df ∧
  ∃ out w1 both,
    clean (Build_AutoDataClean true true) 1 false w0 = Some (out, w1) ∧
    heap w1 !! out = Some both ∧
    (∃ o1 w2 o2 w3,
        clean (Build_AutoDataClean true false) 1 false w0 = Some (o1, w2) ∧
        clean (Build_AutoDataClean false true) o1 false w2 = Some (o2, w3) ∧
        heap w3 !! o2 = Some both) ∧
    (∃ o1 w2 o2 w3,
        clean (Build_AutoDataClean false true) 1 false w0 = Some (o1, w2) ∧
        clean (Build_AutoDataClean true false) o1 false w2 = Some (o2, w3) ∧
        heap w3 !! o2 = Some both).
Proof.
  split; [reflexivity|].
  apply (single_stage_cleaners_compose 1 false false w0 df).
  reflexivity.
Defined.

Lemma clean_leaves_clean_frame_witness :
  heap w_tidy !! 1%positive = Some tidy_df ∧
  NoDup (cells <$> rows tidy_df) ∧
  Forall (λ r, None ∉ cells r) (rows tidy_df) ∧
  ∃ out w',
    clean AutoDataClean_default 1 false w_tidy = Some (out, w') ∧
    heap w' !! out = Some tidy_df ∧
    stdout w' = stdout w_tidy ++
      (if remove_duplicates AutoDataClean_default
       then [Removed_duplicate_rows 0] else []) ++
      (if remove_nulls AutoDataClean_default
       then [Removed_null_rows 0] else []) ++
      [Cleaning_complete (len tidy_df) (len tidy_df)].
Proof.
  assert (NoDup (cells <$> rows tidy_df)) as Hnd.
  { apply (bool_decide_unpack (NoDup (cells <$> rows tidy_df))).
    vm_compute. exact I. }
  assert (Forall (λ r : row value, None ∉ cells r) (rows tidy_df)) as Hna.
  { apply (bool_decide_unpack
             (Forall (λ r : row value, None ∉ cells r) (rows tidy_df))).
    vm_compute. exact I. }
  split; [reflexivity|]. split; [exact Hnd|]. split; [exact Hna|].
  apply (clean_leaves_clean_frame AutoDataClean_default 1 false w_tidy tidy_df
           eq_refl (λ _, Hnd) (λ _, Hna)).
Defined.

Lemma clean_data_appends_cleaned_to_stem_witness :
  files w_files !! ("sample_data" +:+ ".csv")
    = Some (columns df, cells <$> rows df) ∧
  parse_plain (columns df, cells <$> rows df)
    = Some (columns df, cells <$> rows df) ∧
  str_find ("sample_data" +:+ ".csv") ".csv"
    = Some (String.length "sample_data") ∧
  ∃ out w' d',
    clean_data parse_plain every_path_writable ("sample_data" +:+ ".csv")
      None true true w_files = Some (out, w') ∧
    heap w' !! out = Some d' ∧
    d' = cleaned (Build_AutoDataClean true true)
           (Frame (columns df) (imap Row (cells <$> rows df))) ∧
    files w' = <["sample_data" +:+ "_cleaned.csv" :=
                   (columns d', cells <$> rows d')]> (files w_files) ∧
    files w' !! ("sample_data" +:+ ".csv")
      = Some (columns df, cells <$> rows df) ∧
    last (stdout w') = Some (Saved_to ("sample_data" +:+ "_cleaned.csv")).
Proof.
  split; [reflexivity|]. split; [reflexivity|]. split; [reflexivity|].
  exact (clean_data_appends_cleaned_to_stem parse_plain every_path_writable
           "sample_data" true true w_files (columns df, cells <$> rows df)
           (columns df) (cells <$> rows df) eq_refl eq_refl eq_refl).
Defined.

Lemma clean_data_keeps_input_file_witness :
  files w_csv !! "a.csv.csv" = Some (columns df, cells <$> rows df) ∧
  parse_plain (columns df, cells <$> rows df)
    = Some (columns df, cells <$> rows df) ∧
  str_find "a.csv.csv" ".csv" = Some 1%nat ∧
  str_replace "a.csv.csv" ".csv" "_cleaned.csv" ≠ "a.csv.csv" ∧
  ∃ out w' d',
    clean_data parse_plain every_path_writable "a.csv.csv" None true true w_csv
      = Some (out, w') ∧
    heap w' !! out = Some d' ∧
    d' = cleaned (Build_AutoDataClean true true)
           (Frame (columns df) (imap Row (cells <$> rows df))) ∧
    files w' = <[str_replace "a.csv.csv" ".csv" "_cleaned.csv" :=
                   (columns d', cells <$> rows d')]> (files w_csv) ∧
    files w' !! "a.csv.csv" = Some (columns df, cells <$> rows df).
Proof.
  split; [reflexivity|]. split; [reflexivity|]. split; [reflexivity|].
  exact (clean_data_keeps_input_file parse_plain every_path_writable
           "a.csv.csv" true true w_csv (columns df, cells <$> rows df)
           (columns df) (cells <$> rows df) 1 eq_refl eq_refl eq_refl).
Defined.

Lemma clean_data_overwrites_other_extension_witness :
  files w_files !! "data.txt" = Some (columns df, cells <$> rows df) ∧
  parse_plain (columns df, cells <$> rows df)
    = Some (columns df, cells <$> rows df) ∧
  str_find "data.txt" ".csv" = None ∧
  ∃ out w' d',
    clean_data parse_plain every_path_writable "data.txt" None true true w_files
      = Some (out, w') ∧
    heap w' !! out = Some d' ∧
    d' = cleaned (Build_AutoDataClean true true)
           (Frame (columns df) (imap Row (cells <$> rows df))) ∧
    last (stdout w') = Some (Saved_to "data.txt") ∧
    files w' = <["data.txt" := (columns d', cells <$> rows d')]> (files w_files) ∧
    files w' !! "data.txt" = Some (columns d', cells <$> rows d').
Proof.
  split; [reflexivity|]. split; [reflexivity|]. split; [reflexivity|].
  exact (clean_data_overwrites_other_extension parse_plain every_path_writable
           "data.txt" true true w_files (columns df, cells <$> rows df)
           (columns df) (cells <$> rows df) eq_refl eq_refl eq_refl).
Defined.

(** On a system with the working directory alone, the path derived for
    [d.csv/f.csv] cannot be written: [clean_data] raises, where an output
    path in the working directory is written. *)
Lemma clean_data_raises_on_unwritable_path :
  str_replace "d.csv/f.csv" ".csv" "_cleaned.csv"
    = "d_cleaned.csv/f_cleaned.csv" ∧
  clean_data parse_plain only_working_directory "d.csv/f.csv" None true true
    w_subdir = None ∧
  is_Some (clean_data parse_plain only_working_directory "d.csv/f.csv"
             (Some "out.csv") true true w_subdir).
Proof.
  split; [by vm_compute|].
  pose proof (clean_data_run parse_plain only_working_directory "d.csv/f.csv"
                None true true w_subdir (columns df, cells <$> rows df)
                (columns df) (cells <$> rows df) eq_refl eq_refl) as Hnone.
  pose proof (clean_data_run parse_plain only_working_directory "d.csv/f.csv"
                (Some "out.csv") true true w_subdir
                (columns df, cells <$> rows df)
                (columns df) (cells <$> rows df) eq_refl eq_refl) as Hsome.
  cbv zeta in Hnone, Hsome. split; [exact Hnone|].
  rewrite Hsome. by eexists.
Qed.

End FurtherInstances.
